(** * AlphaZero Nano: the agent of [agent.py]

    A shallow embedding of the class [AlphaZeroNano] (self play, batching,
    retraining, arena evaluation and the training loop) and the properties
    of its control logic.

    - Python numbers that reach a comparison or a division are binary64
      floats ([PrimFloat.float]); counters and sizes are [Z]; [int / int]
      is the quotient rounded once, and a tensor built with
      [dtype=torch.float32] holds its entries rounded to binary32.
    - Network objects live in a heap ([gmap handle Params]); a Python
      reference is a [handle], [copy.deepcopy] allocates a fresh one and
      retraining writes the heap in place.
    - The game, the tree search, the network and the random number
      generators are collaborators of the agent: they are interfaces
      (type classes) here.
    - A [while] loop takes fuel; running out of it is the failure
      [OutOfFuel], which is no Python behaviour. *)

From Stdlib Require Import ZArith PrimFloat Uint63 FloatAxioms SpecFloat FloatOps Lia.
From stdpp Require Import base option list gmap.

Local Open Scope Z_scope.

(** ** Python numbers *)

(** [bool(x)] of a number: everything but zero (of either sign) is true. *)
Definition truthy (x : float) : bool := negb (PrimFloat.eqb x 0%float).

(** [x > 0]. *)
Definition positive_result (x : float) : bool := PrimFloat.ltb 0%float x.

(** [a / b] of two ints, [b] not zero: the exact quotient rounded to the
    nearest double, ties to even. The quotient is taken to 64 bits and more,
    with one more bit that says whether anything was left over. *)
Definition true_quotient (a b : Z) : float :=
  let n := Z.abs a in
  let d := Z.abs b in
  let k := Z.max 0 (Z.log2 d + 64 - Z.log2 n) in
  let q := (n * 2 ^ k) / d in
  let sticky := if (n * 2 ^ k) mod d =? 0 then 0 else 1 in
  let m := 2 * q + sticky in
  let negative := xorb (a <? 0) (b <? 0) in
  SF2Prim (binary_normalize prec emax (if negative then - m else m)
                            (- k - 1) negative).

(** The quotients that round beyond the greatest double. *)
Definition quotient_overflows (a b : Z) : bool :=
  (2 ^ 1024 - 2 ^ 970) * Z.abs b <=? Z.abs a.

(** A double as an entry of a [torch.float32] tensor: rounded to the
    nearest binary32 (ties to even, infinite beyond the range), zeros,
    infinities and NaN kept. *)
Definition float32 (x : float) : float :=
  match Prim2SF x with
  | S754_finite s m e => SF2Prim (binary_round 24 128 s m e)
  | _ => x
  end.

(** [sys.maxsize] of a 64-bit build. *)
Definition sys_maxsize : Z := 2 ^ 63 - 1.

(** The promotion threshold's default, the double that Python reads [0.6] as. *)
Definition default_threshold : float := 0x1.3333333333333p-1%float.

(** ** Failures and the state monad of the agent *)

Inductive failure : Type :=
| ValueError          (* torch.tensor on ragged rows, unpacking of an empty zip,
                         DataLoader on a batch size that is not positive or
                         a pass with one above sys.maxsize,
                         np.random.choice on a bad distribution *)
| ZeroDivisionError   (* int / 0 *)
| OverflowError       (* int / int too large for a float *)
| IndexError          (* a dataset index out of range, torch.max of nothing *)
| BadHandle           (* a handle outside the heap: no Python behaviour *)
| OutOfFuel.          (* a while loop that outlived its fuel: no Python behaviour *)

Inductive outcome (W A : Type) : Type :=
| Return (a : A) (w : W)
| Raise (e : failure).
Arguments Return {W A} a w.
Arguments Raise {W A} e.

Definition M (W A : Type) : Type := W → outcome W A.

#[global] Instance M_ret {W} : MRet (M W) := λ A a w, Return a w.
#[global] Instance M_bind {W} : MBind (M W) := λ A B f m w,
  match m w with
  | Return a w' => f a w'
  | Raise e => Raise e
  end.

Definition throw {W A} (e : failure) : M W A := λ _, Raise e.

(** What a run returned, the world it left forgotten. *)
Definition result_of {W A} (o : outcome W A) : failure + A :=
  match o with
  | Return a _ => inr a
  | Raise e => inl e
  end.

(** ** The heap of network objects, the generators and the trace *)

Abbreviation handle := nat (only parsing).

Inductive event : Type :=
| EvSelfPlay (model : handle) (num_episodes : Z)
| EvDeepcopy (src dst : handle)
| EvRetrain (network : handle)
| EvArena (network_a network_b : handle) (num_games : Z).

Record World (Params Rng : Type) : Type := mkWorld {
  nets : gmap handle Params;   (* the torch.nn.Module objects *)
  rng : Rng;                   (* the generators of numpy and torch *)
  trace : list event           (* the phases run so far, oldest first *)
}.
Arguments mkWorld {Params Rng} nets rng trace.
Arguments nets {Params Rng} w.
Arguments rng {Params Rng} w.
Arguments trace {Params Rng} w.

(** ** The collaborators *)

(** [Game.py] and [mcts.py] are imported by [agent.py]; what the agent
    calls of them is a parameter here.

    [Game.py]: the rules. A board carries [getGameEnded()] and
    [getNextState(board, player, action)] itself; the game object has
    [getGameEnded(board, player)] besides. *)
Class Game (State : Type) : Type := {
  getInitBoard : State;
  getGameEnded : State → Z → float;
  state_getGameEnded : State → float;
  getNextState : State → Z → nat → State * Z;
  getActionSize : nat
}.

(** A mini-batch as the loader yields it: three stacked fields. The
    states are rows of [State]: the boards' numbers, once in a tensor. *)
Record batch (State : Type) : Type := mkBatch {
  x_train : list State;
  policy_train : list (list float);
  value_train : list float
}.
Arguments mkBatch {State} x_train policy_train value_train.
Arguments x_train {State} b.
Arguments policy_train {State} b.
Arguments value_train {State} b.

(** The network: [predict], and what one optimisation step
    (lines 136-144: predict on the batch, both losses, [zero_grad],
    [backward], [step]) does to the heap when the loss is taken on network
    [h] and the optimizer was built over the parameters of the networks
    [opt]. Gradients land on [h], the update on [opt]; nothing else is
    written. *)
Class Evaluator (Params State : Type) : Type := {
  predict : Params → State → list float * float;
  fit_batch : gset handle → handle → batch (list float) →
              gmap handle Params → gmap handle Params;
  fit_batch_frame : ∀ opt h b σ k,
    k ≠ h → k ∉ opt → fit_batch opt h b σ !! k = σ !! k
}.

(** The numbers [torch.tensor] reads off a board, in row-major order. *)
Class BoardArray (State : Type) : Type := {
  board_array : State → list float
}.

(** [mcts.py]: the search that turns a root state into a policy target. *)
Class TreeSearch (Params State Rng : Type) : Type := {
  apv_mcts : State → Params → Z → float → Rng → list float * Rng
}.

(** The generators: [np.random.choice(np.arange(n), p=policy)] and the
    permutation a shuffling [DataLoader] draws for one pass. *)
Class Random (Rng : Type) : Type := {
  random_choice : nat → list float → Rng → option (nat * Rng);
  randperm : nat → Rng → list nat * Rng;
  randperm_perm : ∀ n g, (randperm n g).1 ≡ₚ seq 0 n
}.

(** [torch.max(policy, dim=-1)]: the index of the first greatest entry,
    a NaN counting as greatest. *)
Definition float_is_nan (x : float) : bool := negb (PrimFloat.eqb x x).

Definition beats (x best : float) : bool :=
  (float_is_nan x && negb (float_is_nan best)) || PrimFloat.ltb best x.

Fixpoint argmax_from (best : float) (bi i : nat) (l : list float) : nat :=
  match l with
  | [] => bi
  | x :: r =>
      if beats x best then argmax_from x i (S i) r
      else argmax_from best bi (S i) r
  end.

Definition torch_max (policy : list float) : option nat :=
  match policy with
  | [] => None
  | x :: r => Some (argmax_from x 0%nat 1%nat r)
  end.

(** Runs of [size] elements, the last one as long as what is left: how a
    [BatchSampler] that drops nothing cuts its sampler. The fuel bounds the
    number of runs. *)
Fixpoint chunks {A} (fuel size : nat) (l : list A) : list (list A) :=
  match fuel with
  | O => []
  | S fuel' =>
      match l with
      | [] => []
      | _ => take size l :: chunks fuel' size (drop size l)
      end
  end.

(** ** The agent *)

Record AlphaZeroNano : Type := mkAgent {
  c_parameter : float;
  num_simulations : Z;
  optimizer : gset handle   (* the networks whose parameters it was built over *)
}.

Section Agent.
Context {Params State Rng : Type}.
Context {gm : Game State} {ba : BoardArray State}
        {ev : Evaluator Params State}
        {ts : TreeSearch Params State Rng} {rnd : Random Rng}.

Abbreviation W := (World Params Rng).
Abbreviation example := (State * list float * float)%type.

Definition log (e : event) : M W unit :=
  λ w, Return () (mkWorld (nets w) (rng w) (trace w ++ [e])).

Definition get_net (h : handle) : M W Params :=
  λ w, match nets w !! h with
       | Some p => Return p w
       | None => Raise BadHandle
       end.

(** *** [play_game] (lines 146-177) *)

Fixpoint play_loop (fuel : nat) (network_a network_b : handle)
    (game_state : State) (player : Z) : M W (State * Z) :=
  if truthy (state_getGameEnded game_state) then mret (game_state, player)
  else match fuel with
       | O => throw OutOfFuel
       | S fuel' =>
           p ← get_net (if player =? 1 then network_a else network_b);
           let '(policy, _) := predict p game_state in
           match torch_max policy with
           | None => throw IndexError
           | Some action =>
               let '(game_state', player') :=
                 getNextState game_state player action in
               play_loop fuel' network_a network_b game_state' player'
           end
       end.

(** Lines 174-177: the test on the player after the loop, and its two arms. *)
Definition terminal_read (game_state : State) (player : Z) : M W float :=
  if player =? -1 then mret (state_getGameEnded game_state)
  else mret (state_getGameEnded game_state).

Definition play_game (fuel : nat) (network_a network_b : handle) : M W float :=
  '(game_state, player) ← play_loop fuel network_a network_b getInitBoard 1;
  terminal_read game_state player.


(** *** [evaluate_networks] (lines 80-111) *)

(** The loop of lines 101-104 over the call it makes, [play] standing for
    [self.play_game(network_a, network_b)]. *)
Fixpoint tally_loop (play : M W float) (games : nat) (network_a_wins : Z)
    : M W Z :=
  match games with
  | O => mret network_a_wins
  | S games' =>
      network_a_result ← play;
      tally_loop play games'
        (if positive_result network_a_result then network_a_wins + 1
         else network_a_wins)
  end.

Definition arena_loop (fuel : nat) (games : nat) (network_a network_b : handle)
    (network_a_wins : Z) : M W Z :=
  tally_loop (play_game fuel network_a network_b) games network_a_wins.

(** The results of [games] calls in a row, and the wins among them: what
    the loop of [evaluate_networks] folds into [network_a_wins]. *)
Fixpoint play_results (play : M W float) (games : nat) : M W (list float) :=
  match games with
  | O => mret []
  | S games' =>
      r ← play;
      rs ← play_results play games';
      mret (r :: rs)
  end.

Definition play_games (fuel : nat) (games : nat) (network_a network_b : handle)
    : M W (list float) :=
  play_results (play_game fuel network_a network_b) games.

Definition tally (results : list float) : Z :=
  Z.of_nat (length (List.filter positive_result results)).

Definition true_divide (a b : Z) : M W float :=
  if b =? 0 then throw ZeroDivisionError
  else if quotient_overflows a b then throw OverflowError
  else mret (true_quotient a b).

(** Lines 99-111 over the call of line 102. *)
Definition evaluate_networks_over (play : M W float)
    (network_a network_b : handle) (num_games : Z) (threshold : float)
    : M W handle :=
  log (EvArena network_a network_b num_games);;
  network_a_wins ← tally_loop play (Z.to_nat num_games) 0;
  win_rate ← true_divide network_a_wins num_games;
  if PrimFloat.ltb threshold win_rate then mret network_a
  else mret network_b.

Definition evaluate_networks (fuel : nat) (network_a network_b : handle)
    (num_games : Z) (threshold : float) : M W handle :=
  evaluate_networks_over (play_game fuel network_a network_b)
    network_a network_b num_games threshold.

(** *** [self_play] (lines 179-222) *)

Definition with_rng {A} (f : Rng → A * Rng) : M W A :=
  λ w, let '(a, g) := f (rng w) in Return a (mkWorld (nets w) g (trace w)).

Definition np_random_choice (n : nat) (p : list float) : M W nat :=
  λ w, match random_choice n p (rng w) with
       | Some (a, g) => Return a (mkWorld (nets w) g (trace w))
       | None => Raise ValueError
       end.

Fixpoint episode_loop (fuel : nat) (self : AlphaZeroNano) (model : handle)
    (game_state : State) (player : Z) (game_states : list (State * list float))
    : M W (State * list (State * list float)) :=
  if truthy (getGameEnded game_state player) then mret (game_state, game_states)
  else match fuel with
       | O => throw OutOfFuel
       | S fuel' =>
           p ← get_net model;
           policy ← with_rng (apv_mcts game_state p (num_simulations self)
                                (c_parameter self));
           let game_states' := game_states ++ [(game_state, policy)] in
           action ← np_random_choice getActionSize policy;
           let '(game_state', player') :=
             getNextState game_state player action in
           episode_loop fuel' self model game_state' player' game_states'
       end.

(** The same loop, keeping whose turn it was at each recorded state (the
    source does not keep it). *)
Fixpoint episode_turns (fuel : nat) (self : AlphaZeroNano) (model : handle)
    (game_state : State) (player : Z) (turns : list Z) : M W (list Z) :=
  if truthy (getGameEnded game_state player) then mret turns
  else match fuel with
       | O => throw OutOfFuel
       | S fuel' =>
           p ← get_net model;
           policy ← with_rng (apv_mcts game_state p (num_simulations self)
                                (c_parameter self));
           action ← np_random_choice getActionSize policy;
           let '(game_state', player') :=
             getNextState game_state player action in
           episode_turns fuel' self model game_state' player' (turns ++ [player])
       end.

(** Outcome values that flip their sign with the turn: any two examples
    recorded on opposite players' turns add up to zero. *)
Definition outcomes_sign_flipped (turns : list Z) (examples : list example)
    : Prop :=
  ∀ i j p1 p2 (e1 e2 : example),
    turns !! i = Some p1 → examples !! i = Some e1 →
    turns !! j = Some p2 → examples !! j = Some e2 →
    p1 = - p2 →
    PrimFloat.eqb (PrimFloat.add e1.2 e2.2) 0%float = true.

Definition label (game_result : float) (sp : State * list float) : example :=
  (sp.1, sp.2, game_result).

Definition self_play_episode (fuel : nat) (self : AlphaZeroNano)
    (model : handle) : M W (list example) :=
  '(game_state, game_states) ← episode_loop fuel self model getInitBoard 1 [];
  let game_result := state_getGameEnded game_state in
  mret (label game_result <$> game_states).

Fixpoint self_play_loop (fuel : nat) (self : AlphaZeroNano) (model : handle)
    (episodes : nat) (train_episodes : list example) : M W (list example) :=
  match episodes with
  | O => mret train_episodes
  | S episodes' =>
      new ← self_play_episode fuel self model;
      self_play_loop fuel self model episodes' (train_episodes ++ new)
  end.

Definition self_play (fuel : nat) (self : AlphaZeroNano) (model : handle)
    (num_episodes : Z) : M W (list example) :=
  log (EvSelfPlay model num_episodes);;
  self_play_loop fuel self model (Z.to_nat num_episodes) [].

(** *** [batch_episodes] (lines 224-244) *)

(** An example as the tensors hold it: the board's numbers, the policy
    and the outcome, each rounded to binary32. *)
Abbreviation tensor_row := (list float * list float * float)%type.

Definition to_tensor_row (e : example) : tensor_row :=
  (float32 <$> board_array e.1.1, float32 <$> e.1.2, float32 e.2).

Record TensorDataset : Type := mkDataset {
  states_tensor : list (list float);
  policies_tensor : list (list float);
  results_tensor : list float
}.

Record DataLoader : Type := mkLoader {
  dataset : TensorDataset;
  batch_size : nat
}.

(** [torch.tensor(rows, dtype=torch.float32)] wants rows of one length,
    and rounds every entry. *)
Definition rectangular (rows : list (list float)) : bool :=
  match rows with
  | [] => true
  | r :: rs => forallb (λ x, (length x =? length r)%nat) rs
  end.

Definition torch_tensor (rows : list (list float)) : M W (list (list float)) :=
  if rectangular rows then mret ((λ row : list float, float32 <$> row) <$> rows)
  else throw ValueError.

Definition batch_episodes (train_data : list example) (batch_size : Z)
    : M W DataLoader :=
  match train_data with
  | [] => throw ValueError   (* zip() of nothing does not unpack into three *)
  | _ =>
      let states := (λ e : example, e.1.1) <$> train_data in
      let policies := (λ e : example, e.1.2) <$> train_data in
      let results := (λ e : example, e.2) <$> train_data in
      states_tensor ← torch_tensor (board_array <$> states);
      policies_tensor ← torch_tensor policies;
      let results_tensor := float32 <$> results in
      if batch_size <=? 0 then throw ValueError
      else mret (mkLoader (mkDataset states_tensor policies_tensor
                                     results_tensor)
                          (Z.to_nat batch_size))
  end.

(** One pass over the loader: a fresh permutation of the indices, cut into
    runs of [batch_size] (the last one as long as what is left), each run
    collated field by field. The batch sampler takes its runs with
    [itertools.islice], which refuses a length above [sys.maxsize]. *)
Definition dataset_getitem (ds : TensorDataset) (i : nat)
    : option tensor_row :=
  s ← states_tensor ds !! i;
  p ← policies_tensor ds !! i;
  r ← results_tensor ds !! i;
  Some (s, p, r).

Definition collate (items : list tensor_row) : batch (list float) :=
  mkBatch ((λ e : tensor_row, e.1.1) <$> items)
          ((λ e : tensor_row, e.1.2) <$> items)
          ((λ e : tensor_row, e.2) <$> items).

Definition batch_sampler (size : nat) (sampler : list nat) : list (list nat) :=
  chunks (length sampler) size sampler.

(** The examples a mini-batch holds, read back index by index. *)
Definition rows (b : batch (list float)) : list tensor_row :=
  zip (zip (x_train b) (policy_train b)) (value_train b).

Definition fetch (ds : TensorDataset) (indices : list nat)
    : option (batch (list float)) :=
  collate <$> mapM (dataset_getitem ds) indices.

Definition iter_dataloader (dl : DataLoader)
    : M W (list (batch (list float))) :=
  if sys_maxsize <? Z.of_nat (batch_size dl) then throw ValueError
  else
    perm ← with_rng (randperm (length (states_tensor (dataset dl))));
    match mapM (fetch (dataset dl))
               (batch_sampler (batch_size dl) perm) with
    | Some batches => mret batches
    | None => throw IndexError
    end.

(** *** [retrain_nn] (lines 113-144) *)

Definition optimizer_step (self : AlphaZeroNano) (neural_network : handle)
    (b : batch (list float)) : M W unit :=
  λ w, Return () (mkWorld (fit_batch (optimizer self) neural_network b (nets w))
                          (rng w) (trace w)).

Fixpoint fit (self : AlphaZeroNano) (neural_network : handle)
    (batches : list (batch (list float))) : M W unit :=
  match batches with
  | [] => mret ()
  | b :: rest =>
      optimizer_step self neural_network b;;
      fit self neural_network rest
  end.

Definition retrain_nn (self : AlphaZeroNano) (neural_network : handle)
    (train_data : list example) (train_batch_size : Z) : M W unit :=
  log (EvRetrain neural_network);;
  dataloader ← batch_episodes train_data train_batch_size;
  batches ← iter_dataloader dataloader;
  fit self neural_network batches.

(** *** [train] (lines 37-78) *)

(** [copy.deepcopy] of a network: a new object with the same contents. *)
Definition deepcopy (h : handle) : M W handle :=
  λ w, match nets w !! h with
       | Some p =>
           let h' := fresh (dom (nets w)) in
           Return h' (mkWorld (<[h' := p]> (nets w)) (rng w)
                              (trace w ++ [EvDeepcopy h h']))
       | None => Raise BadHandle
       end.

Definition epoch (fuel : nat) (self : AlphaZeroNano) (current_network : handle)
    (train_batch_size num_episodes : Z) : M W handle :=
  train_episodes ← self_play fuel self current_network num_episodes;
  old_network ← deepcopy current_network;
  retrain_nn self current_network train_episodes train_batch_size;;
  evaluate_networks fuel current_network old_network 10 default_threshold.

Fixpoint train_loop (fuel : nat) (self : AlphaZeroNano) (epochs : nat)
    (current_network : handle) (train_batch_size num_episodes : Z)
    : M W handle :=
  match epochs with
  | O => mret current_network
  | S epochs' =>
      current_network' ← epoch fuel self current_network
                           train_batch_size num_episodes;
      train_loop fuel self epochs' current_network'
                 train_batch_size num_episodes
  end.

Definition train (fuel : nat) (self : AlphaZeroNano) (neural_network : handle)
    (train_batch_size num_epochs num_episodes : Z) : M W handle :=
  train_loop fuel self (Z.to_nat num_epochs) neural_network
             train_batch_size num_episodes.

(** A play of the game from board [s] with [p] to move: the boards met
    that were not over, each with the player to move on it, one move of
    the game leading from each to the next, down to the board [s_end] with
    [p_end] to move. *)
Fixpoint episode_path (s : State) (p : Z) (steps : list (State * Z))
    (s_end : State) (p_end : Z) : Prop :=
  match steps with
  | [] => s_end = s ∧ p_end = p
  | (s0, p0) :: rest =>
      s0 = s ∧ p0 = p ∧ truthy (getGameEnded s p) = false ∧
      ∃ action,
        episode_path (getNextState s p action).1 (getNextState s p action).2
                     rest s_end p_end
  end.

(** The episodes of [self_play] one after the other, each kept apart. *)
Fixpoint episode_runs (fuel : nat) (self : AlphaZeroNano) (model : handle)
    (episodes : nat) : M W (list (list example)) :=
  match episodes with
  | O => mret []
  | S episodes' =>
      new ← self_play_episode fuel self model;
      rest ← episode_runs fuel self model episodes';
      mret (new :: rest)
  end.





End Agent.

(** ** Concrete collaborators

    Small games and a small network, to run the agent on. *)
Module Toy.

(** Two moves and the game is over, with result [1]; the turn passes to the
    other player at each move. *)
Definition two_moves : Game nat := {|
  getInitBoard := 0%nat;
  getGameEnded := λ s _, if (2 <=? s)%nat then 1%float else 0%float;
  state_getGameEnded := λ s, if (2 <=? s)%nat then 1%float else 0%float;
  getNextState := λ s player _, (S s, - player);
  getActionSize := 1%nat
|}.

(** The same game, lost by the player who moved first. *)
Definition first_loses : Game nat := {|
  getInitBoard := 0%nat;
  getGameEnded := λ s _, if (2 <=? s)%nat then (-1)%float else 0%float;
  state_getGameEnded := λ s, if (2 <=? s)%nat then (-1)%float else 0%float;
  getNextState := λ s player _, (S s, - player);
  getActionSize := 1%nat
|}.

(** A game that is over before the first move. *)
Definition over_at_start : Game nat := {|
  getInitBoard := 0%nat;
  getGameEnded := λ _ _, 1%float;
  state_getGameEnded := λ _, 1%float;
  getNextState := λ s player _, (S s, - player);
  getActionSize := 1%nat
|}.

(** A network is one integer; a step adds the size of the batch to the
    network under training. *)
Definition fit_count (opt : gset nat) (h : nat) (b : batch (list float))
    (σ : gmap nat Z) : gmap nat Z :=
  alter (Z.add (Z.of_nat (length (x_train b)))) h σ.

Lemma fit_count_frame (opt : gset nat) (h : nat) (b : batch (list float))
    (σ : gmap nat Z) (k : nat) :
  k ≠ h → k ∉ opt → fit_count opt h b σ !! k = σ !! k.
Proof. intros Hk _. unfold fit_count. by rewrite lookup_alter_ne. Qed.

Definition counter_net : Evaluator Z nat := {|
  predict := λ _ _, ([1%float], 0%float);
  fit_batch := fit_count;
  fit_batch_frame := fit_count_frame
|}.

(** A board is its move count, one number. *)
Definition counted : BoardArray nat := {|
  board_array := λ s, [PrimFloat.of_uint63 (Uint63.of_Z (Z.of_nat s))]
|}.

(** A board of as many numbers as moves were made: boards of different
    shapes. *)
Definition growing : BoardArray nat := {|
  board_array := λ s, replicate s 1%float
|}.

Definition one_action : TreeSearch Z nat nat := {|
  apv_mcts := λ _ _ _ _ g, ([1%float], g)
|}.

(** The generator is a counter; a shuffle reverses the indices. *)
Lemma rev_seq_perm (n g : nat) : (reverse (seq 0 n), S g).1 ≡ₚ seq 0 n.
Proof. simpl. by rewrite reverse_Permutation. Qed.

Definition counting : Random nat := {|
  random_choice := λ n _ g, match n with O => None | S _ => Some (0%nat, S g) end;
  randperm := λ n g, (reverse (seq 0 n), S g);
  randperm_perm := rev_seq_perm
|}.

Definition agent : AlphaZeroNano := mkAgent 1%float 25 {[ 0%nat ]}.

Definition world0 : World Z nat := mkWorld {[ 0%nat := 7 ]} 0%nat [].
Definition world01 : World Z nat := mkWorld (<[ 1%nat := 9 ]> {[ 0%nat := 7 ]}) 0%nat [].

(** Games whose results are written down: the call made when the counter
    of the generator reads [k] returns the [k]-th of them (a loss once they
    run out) and moves the counter on. *)
Definition scripted (results : list float) : M (World Z nat) float :=
  λ w, Return (default (-1)%float (results !! rng w))
              (mkWorld (nets w) (S (rng w)) (trace w)).

(** Ten games with seven wins, a draw and two losses; and with six wins. *)
Definition seven_of_ten : list float :=
  [1%float; 1%float; (-1)%float; 1%float; 0%float;
   1%float; 1%float; 1%float; (-1)%float; 1%float].

Definition six_of_ten : list float :=
  [1%float; 1%float; (-1)%float; 1%float; 0%float;
   1%float; 1%float; (-1)%float; (-1)%float; 1%float].

(** The examples of two episodes of [two_moves], and a ragged pair. *)
Definition four_examples : list (nat * list float * float) :=
  [(0%nat, [1%float], 1%float); (1%nat, [1%float], 1%float);
   (0%nat, [1%float], 1%float); (1%nat, [1%float], 1%float)].

Definition ragged_examples : list (nat * list float * float) :=
  [(0%nat, [1%float], 1%float); (1%nat, [1%float; 0%float], 1%float)].

(** The world one epoch on [first_loses] leaves, from [world0]: network [0]
    retrained on four examples, its snapshot [1] as it was. *)
Definition world_after_epoch : World Z nat :=
  mkWorld (<[ 1%nat := 7 ]> {[ 0%nat := 11 ]}) 5%nat
          [EvSelfPlay 0%nat 2; EvDeepcopy 0%nat 1%nat; EvRetrain 0%nat;
           EvArena 0%nat 1%nat 10].

End Toy.

(** ** Facts about the monad *)

Section Monad.
Context {W : Type}.

Lemma bind_Return {A B} (m : M W A) (f : A → M W B) w b w' :
  (m ≫= f) w = Return b w' ↔ ∃ a w1, m w = Return a w1 ∧ f a w1 = Return b w'.
Proof.
  unfold mbind, M_bind. split.
  - destruct (m w) as [a w1|e]; intros Hf; [eauto | discriminate].
  - intros (a & w1 & -> & ?). done.
Qed.

Lemma bind_Raise {A B} (m : M W A) (f : A → M W B) w e :
  (m ≫= f) w = Raise e ↔
  m w = Raise e ∨ ∃ a w1, m w = Return a w1 ∧ f a w1 = Raise e.
Proof.
  unfold mbind, M_bind. split.
  - destruct (m w) as [a w1|e']; intros Hf; [right; eauto | left; congruence].
  - intros [-> | (a & w1 & -> & ?)]; done.
Qed.

Lemma bind_step {A B} (m : M W A) (f : A → M W B) w a w1 :
  m w = Return a w1 → (m ≫= f) w = f a w1.
Proof. unfold mbind, M_bind. by intros ->. Qed.

End Monad.

(** ** Facts about the agent *)

Section AgentFacts.
Context {Params State Rng : Type}.
Context {gm : Game State} {ba : BoardArray State}
        {ev : Evaluator Params State}
        {ts : TreeSearch Params State Rng} {rnd : Random Rng}.

Abbreviation Wd := (World Params Rng).

(** *** Games read two networks and write nothing *)

(** The outcome [o], had the run left the world [w]. *)
Definition in_world {A} (w : Wd) (o : outcome Wd A) : outcome Wd A :=
  match o with
  | Return a _ => Return a w
  | Raise e => Raise e
  end.

(** [m] looks at the heap at [a] and [b] only, and leaves the world as it
    found it. *)
Definition reads_only {A} (a b : handle) (m : M Wd A) : Prop :=
  ∀ w1 w2 : Wd,
    nets w1 !! a = nets w2 !! a → nets w1 !! b = nets w2 !! b →
    m w2 = in_world w2 (m w1).

Lemma reads_only_ret {A} a b (x : A) : reads_only a b (mret x : M Wd A).
Proof. by intros w1 w2 _ _. Qed.

Lemma reads_only_throw {A} a b e : reads_only a b (throw e : M Wd A).
Proof. by intros w1 w2 _ _. Qed.

Lemma reads_only_bind {A B} a b (m : M Wd A) (f : A → M Wd B) :
  reads_only a b m → (∀ x, reads_only a b (f x)) →
  reads_only a b (m ≫= f).
Proof.
  intros Hm Hf w1 w2 Ha Hb. unfold mbind, M_bind.
  rewrite (Hm w1 w2 Ha Hb).
  pose proof (Hm w1 w1 eq_refl eq_refl) as Hw.
  destruct (m w1) as [x w1'|e]; simpl in *; [|done].
  injection Hw as <-. by apply Hf.
Qed.

Lemma reads_only_get_net a b (c : bool) :
  reads_only a b (get_net (if c then a else b) : M Wd Params).
Proof.
  intros w1 w2 Ha Hb. unfold get_net.
  destruct c; [rewrite <- Ha; destruct (nets w1 !! a)
             | rewrite <- Hb; destruct (nets w1 !! b)]; done.
Qed.

Lemma reads_only_play_loop fuel a b s p :
  reads_only a b (play_loop fuel a b s p).
Proof.
  revert s p. induction fuel as [|fuel IH]; intros s p; simpl;
    destruct (truthy (state_getGameEnded s));
    try apply reads_only_ret; try apply reads_only_throw.
  apply reads_only_bind; [apply reads_only_get_net|].
  intros q. destruct (predict q s) as [policy v].
  destruct (torch_max policy) as [action|]; [|apply reads_only_throw].
  destruct (getNextState s p action) as [s' p']. apply IH.
Qed.

Lemma reads_only_terminal_read a b s p : reads_only a b (terminal_read s p).
Proof. unfold terminal_read. destruct (p =? -1); apply reads_only_ret. Qed.

Lemma reads_only_play_game fuel a b : reads_only a b (play_game fuel a b).
Proof.
  unfold play_game. apply reads_only_bind; [apply reads_only_play_loop|].
  intros [s p]. apply reads_only_terminal_read.
Qed.

Lemma reads_only_play_games fuel n a b : reads_only a b (play_games fuel n a b).
Proof.
  induction n as [|n IH]; simpl; [apply reads_only_ret|].
  apply reads_only_bind; [apply reads_only_play_game|]. intros r.
  apply reads_only_bind; [apply IH|]. intros rs. apply reads_only_ret.
Qed.

Lemma reads_only_arena_loop fuel n a b k :
  reads_only a b (arena_loop fuel n a b k).
Proof.
  revert k. induction n as [|n IH]; intros k; simpl; [apply reads_only_ret|].
  apply reads_only_bind; [apply reads_only_play_game|]. intros r. apply IH.
Qed.

(** A run that only reads leaves the world it started in. *)
Lemma reads_only_world {A} a b (m : M Wd A) w x w' :
  reads_only a b m → m w = Return x w' → w' = w.
Proof.
  intros Hm E. pose proof (Hm w w eq_refl eq_refl) as Hw.
  rewrite E in Hw. simpl in Hw. by injection Hw.
Qed.

Lemma reads_only_result {A} a b (m : M Wd A) w1 w2 :
  reads_only a b m →
  nets w1 !! a = nets w2 !! a → nets w1 !! b = nets w2 !! b →
  result_of (m w2) = result_of (m w1).
Proof. intros Hm Ha Hb. rewrite (Hm w1 w2 Ha Hb). by destruct (m w1). Qed.

Lemma reads_only_Return {A} a b (m : M Wd A) w x :
  reads_only a b m → result_of (m w) = inr x → m w = Return x w.
Proof.
  intros Hm E. destruct (m w) as [y w'|e] eqn:Em; simpl in E; [|discriminate].
  injection E as ->. by rewrite (reads_only_world a b m w x w' Hm Em).
Qed.

(** *** The tally of the arena *)

Lemma tally_cons r rs :
  tally (r :: rs) = (if positive_result r then 1 else 0) + tally rs.
Proof. unfold tally. simpl. destruct (positive_result r); simpl; lia. Qed.

Lemma tally_bounds rs : 0 ≤ tally rs ≤ Z.of_nat (length rs).
Proof.
  induction rs as [|r rs IH]; [unfold tally; simpl; lia|].
  rewrite tally_cons. simpl length. destruct (positive_result r); lia.
Qed.

Lemma play_results_length (play : M Wd float) n (w : Wd) rs w' :
  play_results play n w = Return rs w' → length rs = n.
Proof.
  revert w rs w'. induction n as [|n IH]; intros w rs w'; simpl.
  - unfold mret, M_ret. by intros [= <- _].
  - intros (r & w1 & _ & (rs' & w2 & E & Hret)%bind_Return)%bind_Return.
    unfold mret, M_ret in Hret. injection Hret as <- _.
    simpl. f_equal. eauto.
Qed.

Lemma tally_loop_tally (play : M Wd float) n k (w : Wd) rs w' :
  play_results play n w = Return rs w' →
  tally_loop play n k w = Return (k + tally rs) w'.
Proof.
  revert k w rs w'. induction n as [|n IH]; intros k w rs w'; simpl.
  - unfold mret, M_ret. intros [= <- <-]. f_equal. unfold tally. simpl. lia.
  - intros (r & w1 & Er & (rs' & w2 & E & Hret)%bind_Return)%bind_Return.
    unfold mret, M_ret in Hret. injection Hret as <- <-.
    rewrite (bind_step _ _ _ _ _ Er), (IH _ _ _ _ E), tally_cons.
    f_equal. destruct (positive_result r); lia.
Qed.

Lemma play_games_length fuel n a b (w : Wd) rs w' :
  play_games fuel n a b w = Return rs w' → length rs = n.
Proof. apply play_results_length. Qed.

Lemma arena_loop_tally fuel n a b k (w : Wd) rs w' :
  play_games fuel n a b w = Return rs w' →
  arena_loop fuel n a b k w = Return (k + tally rs) w'.
Proof. apply tally_loop_tally. Qed.

(** [x < y] and [x == y] do not hold together. *)
Lemma ltb_not_eqb (x y : float) :
  PrimFloat.ltb x y = true → PrimFloat.eqb x y = false.
Proof.
  rewrite FloatAxioms.ltb_spec, FloatAxioms.eqb_spec. unfold SFltb, SFeqb.
  by destruct (SFcompare _ _) as [[]|].
Qed.

(** A quotient of at most one in size does not overflow. *)
Lemma quotient_fits (a b : Z) :
  Z.abs a ≤ Z.abs b → b ≠ 0 → quotient_overflows a b = false.
Proof.
  intros Hab Hb. unfold quotient_overflows. apply Z.leb_gt.
  assert (Hc : 1 < 2 ^ 1024 - 2 ^ 970) by reflexivity.
  nia.
Qed.

(** The world [evaluate_networks] plays in and leaves. *)
Definition arena_logged (a b : handle) (num_games : Z) (w : Wd) : Wd :=
  mkWorld (nets w) (rng w) (trace w ++ [EvArena a b num_games]).

Lemma evaluate_networks_over_unfold (play : M Wd float) a b num_games
    threshold (w : Wd) :
  evaluate_networks_over play a b num_games threshold w =
  match tally_loop play (Z.to_nat num_games) 0
          (arena_logged a b num_games w) with
  | Return wins w' =>
      if num_games =? 0 then Raise ZeroDivisionError
      else if quotient_overflows wins num_games then Raise OverflowError
      else if PrimFloat.ltb threshold (true_quotient wins num_games)
           then Return a w' else Return b w'
  | Raise e => Raise e
  end.
Proof.
  unfold evaluate_networks_over, mbind, M_bind, log, true_divide, arena_logged.
  simpl.
  destruct (tally_loop _ _ _ _) as [wins w'|e]; [|done].
  destruct (num_games =? 0); [done|].
  destruct (quotient_overflows _ _); [done|]. unfold mret, M_ret.
  by destruct (PrimFloat.ltb _ _).
Qed.

Lemma evaluate_networks_unfold fuel a b num_games threshold (w : Wd) :
  evaluate_networks fuel a b num_games threshold w =
  match arena_loop fuel (Z.to_nat num_games) a b 0
          (arena_logged a b num_games w) with
  | Return wins w' =>
      if num_games =? 0 then Raise ZeroDivisionError
      else if quotient_overflows wins num_games then Raise OverflowError
      else if PrimFloat.ltb threshold (true_quotient wins num_games)
           then Return a w' else Return b w'
  | Raise e => Raise e
  end.
Proof. apply evaluate_networks_over_unfold. Qed.

Lemma evaluate_networks_over_returns (play : M Wd float) a b num_games
    threshold (w : Wd) rs w' :
  num_games ≠ 0 →
  play_results play (Z.to_nat num_games) (arena_logged a b num_games w)
    = Return rs w' →
  evaluate_networks_over play a b num_games threshold w =
  Return (if PrimFloat.ltb threshold (true_quotient (tally rs) num_games)
          then a else b) w'.
Proof.
  intros Hn Hrs. rewrite evaluate_networks_over_unfold.
  rewrite (tally_loop_tally _ _ 0 _ _ _ Hrs). simpl.
  apply Z.eqb_neq in Hn as Hz. rewrite Hz.
  rewrite quotient_fits; [by destruct (PrimFloat.ltb _ _)| |done].
  pose proof (tally_bounds rs). apply play_results_length in Hrs. lia.
Qed.

Lemma evaluate_networks_returns fuel a b num_games threshold (w : Wd) rs :
  num_games ≠ 0 →
  result_of (play_games fuel (Z.to_nat num_games) a b w) = inr rs →
  evaluate_networks fuel a b num_games threshold w =
  Return (if PrimFloat.ltb threshold (true_quotient (tally rs) num_games)
          then a else b)
         (arena_logged a b num_games w).
Proof.
  intros Hn Hrs.
  assert (Hlog : result_of (play_games fuel (Z.to_nat num_games) a b
                              (arena_logged a b num_games w)) = inr rs).
  { rewrite <- Hrs.
    by apply (reads_only_result a b); [apply reads_only_play_games| |]. }
  apply (reads_only_Return a b) in Hlog; [|apply reads_only_play_games].
  by apply evaluate_networks_over_returns.
Qed.

(** *** The arena: tally, gate, zero games, determinism *)

(** C1. Whatever the games of the arena are, and whatever their results
    [rs], one after the other: when the [num_games >= 1] calls of
    [play_game] return [rs], the loop of [evaluate_networks] ends with
    exactly one win counted per result that is greater than zero (a draw or
    a loss counts for nothing, and there is no other tally), the win rate
    is that count divided by [num_games], and the challenger [network_a] is
    returned exactly when [threshold < win_rate]; when the two are equal
    the incumbent [network_b] is returned. [evaluate_networks] is this,
    with the method [play_game] for the call. *)
Theorem evaluate_networks_tally_and_gate (play : M Wd float) a b num_games
    threshold (w : Wd) rs w' :
  1 ≤ num_games →
  play_results play (Z.to_nat num_games) (arena_logged a b num_games w)
    = Return rs w' →
  let win_rate := true_quotient (tally rs) num_games in
  Z.of_nat (length rs) = num_games ∧
  tally rs = Z.of_nat (length (List.filter positive_result rs)) ∧
  tally_loop play (Z.to_nat num_games) 0 (arena_logged a b num_games w)
    = Return (tally rs) w' ∧
  evaluate_networks_over play a b num_games threshold w =
    Return (if PrimFloat.ltb threshold win_rate then a else b) w' ∧
  (PrimFloat.ltb threshold win_rate = true →
     result_of (evaluate_networks_over play a b num_games threshold w)
     = inr a) ∧
  (PrimFloat.ltb threshold win_rate = false →
     result_of (evaluate_networks_over play a b num_games threshold w)
     = inr b) ∧
  (PrimFloat.eqb threshold win_rate = true →
     result_of (evaluate_networks_over play a b num_games threshold w)
     = inr b) ∧
  (∀ fuel (u : Wd),
     evaluate_networks fuel a b num_games threshold u =
     evaluate_networks_over (play_game fuel a b) a b num_games threshold u) ∧
  (∀ fuel games wins (u : Wd),
     arena_loop fuel games a b wins u
     = tally_loop (play_game fuel a b) games wins u).
Proof.
  intros Hn Hrs win_rate.
  assert (Hev := evaluate_networks_over_returns play a b num_games threshold
                   w rs w' ltac:(lia) Hrs).
  fold win_rate in Hev.
  split_and!.
  - apply play_results_length in Hrs. lia.
  - reflexivity.
  - by rewrite (tally_loop_tally _ _ 0 _ _ _ Hrs).
  - exact Hev.
  - intros Hgt. by rewrite Hev, Hgt.
  - intros Hle. by rewrite Hev, Hle.
  - intros Heq. rewrite Hev.
    destruct (PrimFloat.ltb threshold win_rate) eqn:Hlt; [|done].
    apply ltb_not_eqb in Hlt. congruence.
  - done.
  - done.
Qed.

(** No game raises [ZeroDivisionError]. *)
Definition never_divides {A} (m : M Wd A) : Prop :=
  ∀ w, m w ≠ Raise ZeroDivisionError.

Lemma never_divides_bind {A B} (m : M Wd A) (f : A → M Wd B) :
  never_divides m → (∀ x, never_divides (f x)) → never_divides (m ≫= f).
Proof.
  intros Hm Hf w [E|(x & w1 & _ & E)]%bind_Raise; [by apply (Hm w)|].
  by apply (Hf x w1).
Qed.

Lemma never_divides_play_loop fuel a b s p :
  never_divides (play_loop fuel a b s p).
Proof.
  revert s p. induction fuel as [|fuel IH]; intros s p; simpl;
    destruct (truthy (state_getGameEnded s)); try done.
  apply never_divides_bind.
  - intros w. unfold get_net. by destruct (nets w !! _).
  - intros q. destruct (predict q s) as [policy v].
    destruct (torch_max policy) as [action|]; [|done].
    destruct (getNextState s p action) as [s' p']. apply IH.
Qed.

Lemma never_divides_arena_loop fuel n a b k :
  never_divides (arena_loop fuel n a b k).
Proof.
  revert k. induction n as [|n IH]; intros k; simpl; [done|].
  apply never_divides_bind; [|intros r; apply IH].
  unfold play_game. apply never_divides_bind;
    [apply never_divides_play_loop|].
  intros [s p] w. unfold terminal_read. by destruct (p =? -1).
Qed.

(** C10. With [num_games = 0] the division of the wins by [num_games]
    raises [ZeroDivisionError] and neither network is returned; the
    division is the only place that raises it, and it does so for no other
    [num_games]; from [num_games >= 1] on, games that return make
    [evaluate_networks] return one of its two networks. *)
Theorem evaluate_networks_zero_games fuel a b threshold (w : Wd) :
  evaluate_networks fuel a b 0 threshold w = Raise ZeroDivisionError ∧
  (∀ num_games,
     evaluate_networks fuel a b num_games threshold w = Raise ZeroDivisionError →
     num_games = 0) ∧
  (∀ num_games rs,
     1 ≤ num_games →
     result_of (play_games fuel (Z.to_nat num_games) a b w) = inr rs →
     ∃ winner w', (winner = a ∨ winner = b) ∧
       evaluate_networks fuel a b num_games threshold w = Return winner w').
Proof.
  split; [|split].
  - by rewrite evaluate_networks_unfold.
  - intros num_games. rewrite evaluate_networks_unfold.
    pose proof (never_divides_arena_loop fuel (Z.to_nat num_games) a b 0
                  (arena_logged a b num_games w)) as Hloop.
    destruct (arena_loop _ _ _ _ _ _) as [wins w'|e].
    + destruct (num_games =? 0) eqn:Hz; [intros _; lia|].
      destruct (quotient_overflows _ _); [done|].
      by destruct (PrimFloat.ltb _ _).
    + intros [= ->]. done.
  - intros num_games rs Hn Hrs.
    rewrite (evaluate_networks_returns fuel a b num_games threshold w rs
               ltac:(lia) Hrs).
    destruct (PrimFloat.ltb _ _); eauto.
Qed.

(** C7. The arena reads the two networks and nothing else: in two worlds
    that hold the same two networks (whatever their generators, traces and
    other objects) the same number of games gives the same tally and the
    same winner, or the same failure; in particular a second run, started
    where the first one ended, returns what the first returned. *)
Theorem evaluate_networks_deterministic fuel a b num_games threshold
    (w1 w2 : Wd) :
  nets w1 !! a = nets w2 !! a → nets w1 !! b = nets w2 !! b →
  result_of (arena_loop fuel (Z.to_nat num_games) a b 0 w1) =
    result_of (arena_loop fuel (Z.to_nat num_games) a b 0 w2) ∧
  result_of (evaluate_networks fuel a b num_games threshold w1) =
    result_of (evaluate_networks fuel a b num_games threshold w2) ∧
  (∀ winner w1',
     evaluate_networks fuel a b num_games threshold w1 = Return winner w1' →
     result_of (evaluate_networks fuel a b num_games threshold w1') = inr winner).
Proof.
  intros Ha Hb.
  assert (Hres : ∀ u v : Wd,
            nets u !! a = nets v !! a → nets u !! b = nets v !! b →
            result_of (evaluate_networks fuel a b num_games threshold u) =
            result_of (evaluate_networks fuel a b num_games threshold v)).
  { intros u v Hua Hub. rewrite !evaluate_networks_unfold.
    pose proof (reads_only_arena_loop fuel (Z.to_nat num_games) a b 0
                  (arena_logged a b num_games u)
                  (arena_logged a b num_games v) Hua Hub) as ->.
    destruct (arena_loop _ _ _ _ _ _) as [wins u'|e]; simpl; [|done].
    destruct (num_games =? 0); [done|].
    destruct (quotient_overflows _ _); [done|].
    by destruct (PrimFloat.ltb _ _). }
  split; [|split].
  - symmetry. by apply (reads_only_result a b); [apply reads_only_arena_loop| |].
  - by apply Hres.
  - intros winner w1' E.
    assert (nets w1' = nets w1) as Hn.
    { rewrite evaluate_networks_unfold in E.
      destruct (arena_loop _ _ _ _ _ _) as [wins u'|e] eqn:El; [|done].
      apply (reads_only_world a b) in El; [|apply reads_only_arena_loop].
      subst u'. destruct (num_games =? 0); [done|].
      destruct (quotient_overflows _ _); [done|].
      by destruct (PrimFloat.ltb _ _); injection E as _ <-. }
    rewrite (Hres w1' w1), E; [done| |]; by rewrite Hn.
Qed.




(** *** Self play *)

Definition self_play_logged (model : handle) (num_episodes : Z) (w : Wd) : Wd :=
  mkWorld (nets w) (rng w) (trace w ++ [EvSelfPlay model num_episodes]).

(** The loop of an episode appends to what it was given, one recorded state
    per turn; the loop that keeps the turns runs along with it; and the
    boards recorded are those of one play of the game, which went on to
    the board the loop returns, over for the player to move on it. *)
Lemma episode_loop_path fuel self model s p gs tn (w : Wd) s' gs' w' :
  episode_loop fuel self model s p gs w = Return (s', gs') w' →
  ∃ new_states new_turns p',
    gs' = gs ++ new_states ∧ length new_turns = length new_states ∧
    episode_turns fuel self model s p tn w = Return (tn ++ new_turns) w' ∧
    episode_path s p (zip (fst <$> new_states) new_turns) s' p' ∧
    truthy (getGameEnded s' p') = true.
Proof.
  revert s p gs tn w. induction fuel as [|fuel IH]; intros s p gs tn w; simpl;
    destruct (truthy (getGameEnded s p)) eqn:Hend.
  - intros [= <- <- <-]. exists [], [], p. by rewrite !app_nil_r.
  - done.
  - intros [= <- <- <-]. exists [], [], p. by rewrite !app_nil_r.
  - unfold mbind, M_bind, get_net, with_rng, np_random_choice.
    destruct (nets w !! model) as [q|]; [|done].
    destruct (apv_mcts s q _ _ _) as [policy g]. simpl.
    destruct (random_choice _ _ _) as [[action g']|]; [|done].
    destruct (getNextState s p action) as [s1 p1] eqn:Hnext.
    intros (new_states & new_turns & p' & -> & Hlen & E & Hpath & Hfin)
             %(IH _ _ _ (tn ++ [p])).
    exists ((s, policy) :: new_states), (p :: new_turns), p'.
    rewrite E, <- !app_assoc. simpl. rewrite Hlen.
    split_and!; try done. exists action. by rewrite Hnext.
Qed.

(** C2, as the code has it. The examples of one episode all carry one and
    the same outcome: the [getGameEnded()] of the board on which the loop
    of the episode stopped, attached as it is to every state the loop
    recorded, whoever was to move when the state was recorded. Two
    examples recorded on opposite turns have equal outcomes, not opposite
    ones. *)
Theorem self_play_episode_outcome_shared fuel self model (w : Wd) exs w' :
  self_play_episode fuel self model w = Return exs w' →
  ∃ turns s_end p_end game_states,
    episode_loop fuel self model getInitBoard 1 [] w
    = Return (s_end, game_states) w' ∧
    episode_turns fuel self model getInitBoard 1 [] w = Return turns w' ∧
    length turns = length exs ∧
    episode_path getInitBoard 1 (zip (fst <$> game_states) turns)
                 s_end p_end ∧
    truthy (getGameEnded s_end p_end) = true ∧
    exs = (λ sp, (sp.1, sp.2, state_getGameEnded s_end)) <$> game_states ∧
    (∀ i e, exs !! i = Some e → e.2 = state_getGameEnded s_end) ∧
    (∀ i j p1 p2 (e1 e2 : State * list float * float),
       turns !! i = Some p1 → exs !! i = Some e1 →
       turns !! j = Some p2 → exs !! j = Some e2 →
       p1 = - p2 → e1.2 = e2.2).
Proof.
  unfold self_play_episode. intros ([s gs] & w1 & E & Hret)%bind_Return.
  unfold mret, M_ret in Hret. injection Hret as <- <-.
  destruct (episode_loop_path _ _ _ _ _ _ [] _ _ _ _ E)
    as (new_states & new_turns & p' & -> & Hlen & Et & Hpath & Hfin).
  exists new_turns, s, p', new_states. simpl in *.
  assert (Hall : ∀ i e, (label (state_getGameEnded s) <$> new_states) !! i
                         = Some e → e.2 = state_getGameEnded s).
  { intros i e. rewrite list_lookup_fmap.
    destruct (new_states !! i); intros [= <-]; done. }
  split_and!; try done.
  - by rewrite length_fmap.
  - intros i j p1 p2 e1 e2 _ H1 _ H2 _.
    by rewrite (Hall _ _ H1), (Hall _ _ H2).
Qed.

Lemma self_play_loop_nothing fuel self model n acc (w : Wd) :
  self_play_episode fuel self model w = Return [] w →
  self_play_loop fuel self model n acc w = Return acc w.
Proof.
  intros E. revert acc. induction n as [|n IH]; intros acc; simpl; [done|].
  by rewrite (bind_step _ _ _ _ _ E), app_nil_r.
Qed.

(** C6. When the initial board is already over for the first player, an
    episode records nothing and returns, whatever the fuel; so does
    [self_play], with an empty list, for every number of episodes. *)
Theorem self_play_terminal_start fuel self model num_episodes (w : Wd) :
  truthy (getGameEnded getInitBoard 1) = true →
  self_play_episode fuel self model w = Return [] w ∧
  self_play fuel self model num_episodes w =
    Return [] (self_play_logged model num_episodes w).
Proof.
  intros Hend.
  assert (Hep : ∀ u : Wd, self_play_episode fuel self model u = Return [] u).
  { intros u. unfold self_play_episode, mbind, M_bind.
    destruct fuel; simpl; by rewrite Hend. }
  split; [apply Hep|].
  unfold self_play, mbind, M_bind, log. simpl.
  by apply self_play_loop_nothing.
Qed.

(** *** The training loop *)

(** C3. With [num_epochs = 0] the loop body never runs: [train] returns the
    very handle it was given and leaves the world as it was, heap,
    generators and trace (no self play, no deep copy, no retraining, no
    arena), whatever the other arguments. *)
Theorem train_zero_epochs fuel self neural_network train_batch_size
    num_episodes (w : Wd) :
  train fuel self neural_network train_batch_size 0 num_episodes w =
    Return neural_network w ∧
  (∀ next w',
     train fuel self neural_network train_batch_size 0 num_episodes w =
       Return next w' →
     next = neural_network ∧ nets w' = nets w ∧ rng w' = rng w ∧
     trace w' = trace w).
Proof.
  assert (E : train fuel self neural_network train_batch_size 0 num_episodes w
              = Return neural_network w).
  { unfold train. change (Z.to_nat 0) with O. reflexivity. }
  split; [exact E|]. intros next w'. rewrite E. by intros [= <- <-].
Qed.

(** *** Batching *)

Lemma rectangular_true (rows : list (list float)) :
  rectangular rows = true ↔
  ∀ x y, x ∈ rows → y ∈ rows → length x = length y.
Proof.
  destruct rows as [|r rs]; simpl.
  - split; [intros _ x y Hx; by apply elem_of_nil in Hx | done].
  - rewrite forallb_forall. split.
    + intros Hall x y Hx Hy.
      assert (Hr : ∀ z, z ∈ r :: rs → length z = length r).
      { intros z [->|Hz]%elem_of_cons; [done|].
        by apply Nat.eqb_eq, Hall, list_elem_of_In. }
      by rewrite (Hr x Hx), (Hr y Hy).
    + intros Hall z Hz%list_elem_of_In. apply Nat.eqb_eq, Hall.
      * by right.
      * by left.
Qed.

(** The dataset whose rows are [rows]. *)
Definition dataset_of (rows : list (list float * list float * float))
    : TensorDataset :=
  mkDataset ((λ e, e.1.1) <$> rows) ((λ e, e.1.2) <$> rows)
            ((λ e, e.2) <$> rows).

Lemma batch_episodes_unfold (train_data : list (State * list float * float))
    batch_size (w : Wd) :
  train_data ≠ [] →
  batch_episodes train_data batch_size w =
  if rectangular (board_array <$> ((λ e, e.1.1) <$> train_data)) then
    if rectangular ((λ e, e.1.2) <$> train_data) then
      if batch_size <=? 0 then Raise ValueError
      else Return (mkLoader (dataset_of (to_tensor_row <$> train_data))
                            (Z.to_nat batch_size)) w
    else Raise ValueError
  else Raise ValueError.
Proof.
  intros Hne. destruct train_data as [|e0 rest]; [done|].
  unfold batch_episodes. cbv iota. generalize (e0 :: rest). intros d.
  unfold mbind, M_bind, torch_tensor.
  destruct (rectangular (board_array <$> _)); [|done].
  destruct (rectangular _); [|done].
  destruct (batch_size <=? 0); [done|].
  unfold mret, M_ret, dataset_of, to_tensor_row.
  by rewrite <- !list_fmap_compose.
Qed.

(** C5. Two examples whose policy targets differ in length make
    [batch_episodes] raise [ValueError]: no loader and no mini-batch is
    produced, and retraining on such data raises it too. *)
Theorem batch_episodes_ragged (train_data : list (State * list float * float))
    batch_size (w : Wd) e1 e2 :
  e1 ∈ train_data → e2 ∈ train_data → length e1.1.2 ≠ length e2.1.2 →
  batch_episodes train_data batch_size w = Raise ValueError ∧
  (∀ self neural_network,
     retrain_nn self neural_network train_data batch_size w = Raise ValueError).
Proof.
  intros H1 H2 Hne.
  assert (E : ∀ u : Wd, batch_episodes train_data batch_size u = Raise ValueError).
  { intros u. rewrite batch_episodes_unfold; [|by intros ->; apply elem_of_nil in H1].
    destruct (rectangular (board_array <$> _)); [|done].
    destruct (rectangular _) eqn:Hrect; [|done].
    exfalso. apply Hne. rewrite rectangular_true in Hrect.
    apply Hrect; apply list_elem_of_fmap; eauto. }
  split; [apply E|]. intros self h.
  unfold retrain_nn, mbind, M_bind, log. simpl. by rewrite E.
Qed.

(** Cutting a list into runs. *)
Lemma chunks_concat {A} fuel size (l : list A) :
  (1 ≤ size)%nat → (length l ≤ fuel)%nat → mjoin (chunks fuel size l) = l.
Proof.
  intros Hs. revert l. induction fuel as [|fuel IH]; intros l Hl.
  - destruct l; [done | simpl in Hl; lia].
  - destruct l as [|x l]; [done|]. cbn [chunks mjoin list_join].
    rewrite IH; [apply take_drop|].
    rewrite length_drop. simpl in *. lia.
Qed.

Lemma chunks_lookup {A} fuel size (l : list A) k c :
  (1 ≤ size)%nat → (length l ≤ fuel)%nat →
  chunks fuel size l !! k = Some c →
  c = take size (drop (k * size) l) ∧ (k * size < length l)%nat.
Proof.
  intros Hs. revert l k. induction fuel as [|fuel IH]; intros l k Hl.
  - done.
  - destruct l as [|x l]; [done|]. destruct k as [|k].
    + intros [= <-]. simpl. split; [done|lia].
    + cbn [chunks lookup list_lookup]. intros [-> Hk]%IH.
      * rewrite drop_drop. rewrite length_drop in Hk.
        split; [f_equal; f_equal; lia | simpl in *; lia].
      * rewrite length_drop. simpl in *. lia.
Qed.

Lemma chunks_Forall2 {A B} (R : A → B → Prop) fuel size l k :
  Forall2 R l k → Forall2 (Forall2 R) (chunks fuel size l) (chunks fuel size k).
Proof.
  revert l k. induction fuel as [|fuel IH]; intros l k HR; [constructor|].
  destruct HR as [|x y l k Hxy HR]; [constructor|].
  cbn [chunks]. constructor.
  - apply Forall2_take. by constructor.
  - apply IH, Forall2_drop. by constructor.
Qed.

(** Reading a list at a permutation of its indices gives a permutation of
    the list. *)
Lemma Forall2_Permutation_l {A B} (R : A → B → Prop) l l' k :
  l ≡ₚ l' → Forall2 R l k → ∃ k', Forall2 R l' k' ∧ k ≡ₚ k'.
Proof.
  intros Hp. revert k. induction Hp as [|x l l' _ IH|x y l|l l1 l2 _ IH1 _ IH2];
    intros k HR.
  - apply Forall2_nil_inv_l in HR as ->. by exists [].
  - apply Forall2_cons_inv_l in HR as (z & k0 & Hz & HR & ->).
    destruct (IH _ HR) as (k' & ? & ?). exists (z :: k').
    split; [by constructor | by constructor].
  - apply Forall2_cons_inv_l in HR as (z1 & k0 & Hz1 & HR & ->).
    apply Forall2_cons_inv_l in HR as (z2 & k1 & Hz2 & HR & ->).
    exists (z2 :: z1 :: k1). split; [by repeat constructor | apply perm_swap].
  - destruct (IH1 _ HR) as (k1 & HR1 & Hp1).
    destruct (IH2 _ HR1) as (k2 & HR2 & Hp2).
    exists k2. split; [done | by etrans].
Qed.

Lemma lookup_all {A} (d : list A) :
  Forall2 (λ i x, d !! i = Some x) (seq 0 (length d)) d.
Proof.
  apply Forall2_same_length_lookup_2; [by rewrite length_seq|].
  intros i j x [-> _]%lookup_seq. done.
Qed.

Lemma rows_collate (items : list (list float * list float * float)) :
  rows (collate items) = items.
Proof.
  unfold rows, collate. simpl.
  induction items as [|[[s p] r] items IH]; [done|].
  cbn. by rewrite IH.
Qed.

Lemma dataset_getitem_lookup (d : list (list float * list float * float)) i :
  dataset_getitem (dataset_of d) i = d !! i.
Proof.
  unfold dataset_getitem, dataset_of. simpl. rewrite !list_lookup_fmap.
  by destruct (d !! i) as [[[s p] r]|].
Qed.

(** One pass over a loader on the rows [d] with a batch size [size] that
    [islice] takes: the mini-batches are the runs of [d] read at the
    permutation drawn. *)
Lemma iter_dataloader_chunks (d : list (list float * list float * float))
    size (w : Wd) :
  Z.of_nat size ≤ sys_maxsize →
  ∃ items g,
    items ≡ₚ d ∧
    iter_dataloader (mkLoader (dataset_of d) size) w
    = Return (collate <$> chunks (length items) size items)
             (mkWorld (nets w) g (trace w)).
Proof.
  intros Hmax. unfold iter_dataloader. simpl.
  destruct (sys_maxsize <? Z.of_nat size) eqn:Hlt; [lia|].
  unfold with_rng, mbind, M_bind. simpl. rewrite length_fmap.
  pose proof (randperm_perm (length d) (rng w)) as Hperm.
  destruct (randperm (length d) (rng w)) as [perm g]. simpl in Hperm.
  symmetry in Hperm.
  destruct (Forall2_Permutation_l _ _ _ _ Hperm (lookup_all d))
    as (items & Hitems & Hpi).
  exists items, g. split; [done|].
  assert (Hb : mapM (fetch (dataset_of d)) (batch_sampler size perm)
               = Some (collate <$> chunks (length items) size items)).
  { apply mapM_Some_2, Forall2_fmap_r. unfold batch_sampler.
    rewrite (Forall2_length _ _ _ Hitems).
    eapply Forall2_impl; [by apply chunks_Forall2|].
    intros c c' Hc. unfold fetch.
    rewrite (mapM_Some_2 _ c c'); [done|].
    eapply Forall2_impl; [exact Hc|].
    intros i x Hx. simpl. by rewrite dataset_getitem_lookup. }
  by rewrite Hb.
Qed.

(** A batch size above [sys.maxsize] is refused by the pass. *)
Lemma iter_dataloader_too_large ds size (w : Wd) :
  sys_maxsize < Z.of_nat size →
  iter_dataloader (mkLoader ds size) w = Raise ValueError.
Proof.
  intros Hmax. unfold iter_dataloader. simpl.
  by destruct (sys_maxsize <? Z.of_nat size) eqn:Hlt; [|lia].
Qed.

(** C4, as the code has it. A non-empty list of examples whose boards are
    of one shape and whose policy targets are of one length, batched with
    [1 <= batch_size <= sys.maxsize]: the loader is built, and one pass
    over it gives mini-batches whose rows, taken together, are a
    permutation of the examples as the float32 tensors hold them (none
    dropped, none repeated, and no example's state, policy and outcome
    taken apart); the sizes of the mini-batches add up to the number of
    examples; and in the [k]-th mini-batch each of the three fields has
    [min batch_size (n - k * batch_size)] entries. *)
Theorem batch_episodes_partition
    (train_data : list (State * list float * float)) batch_size (w : Wd) :
  train_data ≠ [] →
  (∀ e1 e2, e1 ∈ train_data → e2 ∈ train_data →
            length (board_array e1.1.1) = length (board_array e2.1.1)) →
  (∀ e1 e2, e1 ∈ train_data → e2 ∈ train_data →
            length e1.1.2 = length e2.1.2) →
  1 ≤ batch_size ≤ sys_maxsize →
  ∃ dl batches w',
    batch_episodes train_data batch_size w = Return dl w ∧
    iter_dataloader dl w = Return batches w' ∧
    mjoin (rows <$> batches) ≡ₚ to_tensor_row <$> train_data ∧
    sum_list ((λ b, length (x_train b)) <$> batches) = length train_data ∧
    (∀ k b, batches !! k = Some b →
       let size := (Z.to_nat batch_size
                    `min` (length train_data - k * Z.to_nat batch_size))%nat in
       length (x_train b) = size ∧ length (policy_train b) = size ∧
       length (value_train b) = size) ∧
    (∀ b j s p r, b ∈ batches →
       x_train b !! j = Some s → policy_train b !! j = Some p →
       value_train b !! j = Some r →
       ∃ e, e ∈ train_data ∧ (s, p, r) = to_tensor_row e).
Proof.
  intros Hne Hboards Hhom Hbs.
  destruct (iter_dataloader_chunks (to_tensor_row <$> train_data)
              (Z.to_nat batch_size) w ltac:(lia))
    as (items & g & Hpi & Hiter).
  assert (Hlen : length items = length train_data).
  { by rewrite (Permutation_length Hpi), length_fmap. }
  assert (Hsize : (1 ≤ Z.to_nat batch_size)%nat) by lia.
  assert (Hjoin : mjoin (chunks (length items) (Z.to_nat batch_size) items)
                  = items) by by apply chunks_concat.
  assert (Hrows : rows <$> (collate <$>
                    chunks (length items) (Z.to_nat batch_size) items)
                  = chunks (length items) (Z.to_nat batch_size) items).
  { rewrite <- list_fmap_compose. rewrite <- (list_fmap_id (chunks _ _ _)) at 2.
    apply list_fmap_ext. intros i c _. apply rows_collate. }
  eexists _, _, _. split; [|split; [exact Hiter|]].
  { rewrite batch_episodes_unfold by done.
    assert (rectangular (board_array <$> ((λ e, e.1.1) <$> train_data))
            = true) as ->.
    { apply rectangular_true.
      intros x y (s1 & -> & (e1 & -> & H1)%list_elem_of_fmap)%list_elem_of_fmap
        (s2 & -> & (e2 & -> & H2)%list_elem_of_fmap)%list_elem_of_fmap.
      by apply Hboards. }
    assert (rectangular ((λ e, e.1.2) <$> train_data) = true) as ->.
    { apply rectangular_true. intros x y (e1 & -> & H1)%list_elem_of_fmap
        (e2 & -> & H2)%list_elem_of_fmap. by apply Hhom. }
    destruct (batch_size <=? 0) eqn:Hz; [lia|done]. }
  split; [by rewrite Hrows, Hjoin|]. split; [|split].
  - rewrite <- Hlen.
    trans (length (mjoin (chunks (length items) (Z.to_nat batch_size) items)));
      [|by rewrite Hjoin].
    rewrite length_join, <- list_fmap_compose. f_equal.
    apply list_fmap_ext. intros i c _. simpl. by rewrite length_fmap.
  - intros k b (c & -> & Hc)%list_lookup_fmap_Some.
    apply chunks_lookup in Hc as [-> _]; [|done..].
    simpl. rewrite !length_fmap, length_take, length_drop.
    by rewrite Hlen.
  - intros b j s p r (c & -> & Hc)%list_elem_of_fmap. simpl.
    rewrite !list_lookup_fmap.
    destruct (c !! j) as [[[s0 p0] r0]|] eqn:Hj; [|done].
    simpl. intros [= <-] [= <-] [= <-].
    assert (Hin : (s0, p0, r0) ∈ to_tensor_row <$> train_data).
    { rewrite <- Hpi, <- Hjoin. apply list_elem_of_join.
      exists c. split; [by eapply list_elem_of_lookup_2|done]. }
    apply list_elem_of_fmap in Hin as (e & He & Hin). eauto.
Qed.

(** *** What each phase of an epoch does to the heap *)

(** [m] leaves every network object as it was. *)
Definition keeps_nets {A} (m : M Wd A) : Prop :=
  ∀ w x w', m w = Return x w' → nets w' = nets w.

Lemma keeps_nets_ret {A} (x : A) : keeps_nets (mret x : M Wd A).
Proof. by intros w y w' [= _ <-]. Qed.

Lemma keeps_nets_throw {A} e : keeps_nets (throw e : M Wd A).
Proof. by intros w y w'. Qed.

Lemma keeps_nets_bind {A B} (m : M Wd A) (f : A → M Wd B) :
  keeps_nets m → (∀ x, keeps_nets (f x)) → keeps_nets (m ≫= f).
Proof.
  intros Hm Hf w y w' (x & w1 & E1 & E2)%bind_Return.
  by rewrite (Hf _ _ _ _ E2), (Hm _ _ _ E1).
Qed.

Lemma keeps_nets_log e : keeps_nets (log e).
Proof. intros w y w'. unfold log. by intros [= _ <-]. Qed.

Lemma keeps_nets_get_net h : keeps_nets (get_net h).
Proof.
  intros w y w'. unfold get_net. destruct (nets w !! h); [|done].
  by intros [= _ <-].
Qed.

Lemma keeps_nets_with_rng {A} (f : Rng → A * Rng) : keeps_nets (with_rng f).
Proof.
  intros w y w'. unfold with_rng. destruct (f (rng w)). by intros [= _ <-].
Qed.

Lemma keeps_nets_np_random_choice n p : keeps_nets (np_random_choice n p).
Proof.
  intros w y w'. unfold np_random_choice.
  destruct (random_choice n p (rng w)) as [[]|]; [|done]. by intros [= _ <-].
Qed.

Lemma keeps_nets_episode_loop fuel self model s p gs :
  keeps_nets (episode_loop fuel self model s p gs).
Proof.
  revert s p gs. induction fuel as [|fuel IH]; intros s p gs; simpl;
    destruct (truthy (getGameEnded s p));
    try apply keeps_nets_ret; try apply keeps_nets_throw.
  apply keeps_nets_bind; [apply keeps_nets_get_net|]. intros q.
  apply keeps_nets_bind; [apply keeps_nets_with_rng|]. intros policy.
  apply keeps_nets_bind; [apply keeps_nets_np_random_choice|]. intros action.
  destruct (getNextState s p action). apply IH.
Qed.

Lemma keeps_nets_self_play fuel self model num_episodes :
  keeps_nets (self_play fuel self model num_episodes).
Proof.
  unfold self_play. apply keeps_nets_bind; [apply keeps_nets_log|]. intros _.
  generalize (@nil (State * list float * float)).
  induction (Z.to_nat num_episodes) as [|n IH]; intros acc; simpl;
    [apply keeps_nets_ret|].
  apply keeps_nets_bind; [|intros new; apply IH].
  unfold self_play_episode.
  apply keeps_nets_bind; [apply keeps_nets_episode_loop|].
  intros [s gs]. apply keeps_nets_ret.
Qed.

Lemma keeps_nets_evaluate_networks fuel a b num_games threshold :
  keeps_nets (evaluate_networks fuel a b num_games threshold).
Proof.
  intros w y w'. rewrite evaluate_networks_unfold.
  destruct (arena_loop _ _ _ _ _ _) as [wins u|e] eqn:El; [|done].
  apply (reads_only_world a b) in El as ->; [|apply reads_only_arena_loop].
  destruct (num_games =? 0); [done|].
  destruct (quotient_overflows _ _); [done|].
  by destruct (PrimFloat.ltb _ _); intros [= _ <-].
Qed.

(** Retraining writes the network under training and the networks of the
    optimizer, nothing else. *)
Lemma fit_frame self h batches (w : Wd) w' k :
  fit self h batches w = Return () w' →
  k ≠ h → k ∉ optimizer self → nets w' !! k = nets w !! k.
Proof.
  intros E Hk Hopt. revert w E.
  induction batches as [|b rest IH]; intros w; simpl.
  - by intros [= <-].
  - unfold mbind, M_bind, optimizer_step. intros E%IH. rewrite E. simpl.
    by apply fit_batch_frame.
Qed.

Lemma retrain_nn_frame self h train_data train_batch_size (w : Wd) w' k :
  retrain_nn self h train_data train_batch_size w = Return () w' →
  k ≠ h → k ∉ optimizer self → nets w' !! k = nets w !! k.
Proof.
  unfold retrain_nn.
  intros (? & w1 & [= <-] & (dl & w2 & Edl & (bs & w3 & Eit & Efit)%bind_Return)
            %bind_Return)%bind_Return Hk Hopt.
  rewrite (fit_frame _ _ _ _ _ _ Efit Hk Hopt).
  assert (nets w3 = nets w2) as ->.
  { revert Eit. unfold iter_dataloader.
    destruct (sys_maxsize <? _); [done|].
    intros (perm & u & Eu & Em)%bind_Return.
    apply keeps_nets_with_rng in Eu.
    destruct (mapM _ _); [|done]. by injection Em as _ <-. }
  assert (w2 = mkWorld (nets w) (rng w) (trace w ++ [EvRetrain h])) as ->; [|done].
  revert Edl. destruct (decide (train_data = [])) as [->|Hne]; [done|].
  rewrite batch_episodes_unfold by done.
  destruct (rectangular (board_array <$> _)); [|done].
  destruct (rectangular _); [|done].
  destruct (train_batch_size <=? 0); [done|]. by intros [= _ <-].
Qed.

Lemma deepcopy_Return h (w : Wd) old w' :
  deepcopy h w = Return old w' →
  (old ∉ dom (nets w)) ∧
  ∃ p, nets w !! h = Some p ∧ nets w' = <[old := p]> (nets w).
Proof.
  unfold deepcopy. destruct (nets w !! h) as [p|]; [|done].
  intros [= <- <-]. split; [apply is_fresh|]. eauto.
Qed.

(** C8. In an epoch that returns: the snapshot [old_network] is a new
    object (no handle of the heap so far, the challenger's least of all)
    holding what the current network held before retraining; retraining
    the current network does not write it; the arena does not write it;
    and the epoch carries on with either the current network or the
    snapshot, so when the challenger is not promoted the next epoch starts
    from the snapshot, whose parameters are the pre-training ones. *)
Theorem epoch_keeps_incumbent fuel self current_network train_batch_size
    num_episodes (w : Wd) next w' :
  optimizer self ⊆ dom (nets w) →
  epoch fuel self current_network train_batch_size num_episodes w
    = Return next w' →
  ∃ train_episodes w1 old_network w2 w3,
    self_play fuel self current_network num_episodes w
      = Return train_episodes w1 ∧
    deepcopy current_network w1 = Return old_network w2 ∧
    retrain_nn self current_network train_episodes train_batch_size w2
      = Return () w3 ∧
    evaluate_networks fuel current_network old_network 10 default_threshold w3
      = Return next w' ∧
    (old_network ∉ dom (nets w)) ∧ old_network ≠ current_network ∧
    is_Some (nets w !! current_network) ∧
    nets w2 !! old_network = nets w !! current_network ∧
    nets w3 !! old_network = nets w !! current_network ∧
    nets w' !! old_network = nets w !! current_network ∧
    (next = current_network ∨ next = old_network) ∧
    (next ≠ current_network →
       next = old_network ∧ nets w' !! next = nets w !! current_network) ∧
    (∀ epochs,
       train_loop fuel self (S epochs) current_network train_batch_size
                  num_episodes w
       = train_loop fuel self epochs next train_batch_size num_episodes w').
Proof.
  intros Hopt Hepoch. pose proof Hepoch as Hep. revert Hep. unfold epoch.
  intros (eps & w1 & Esp & (old & w2 & Edc & (? & w3 & Ert & Eev)%bind_Return)
            %bind_Return)%bind_Return.
  destruct x.
  pose proof (keeps_nets_self_play _ _ _ _ _ _ _ Esp) as Hn1.
  pose proof (deepcopy_Return _ _ _ _ Edc) as (Hfresh & p & Hp & Hn2).
  rewrite Hn1 in Hfresh, Hp.
  assert (Hne : old ≠ current_network).
  { intros ->. apply Hfresh, elem_of_dom. eauto. }
  assert (H2 : nets w2 !! old = nets w !! current_network).
  { by rewrite Hn2, lookup_insert_eq, Hp. }
  assert (H3 : nets w3 !! old = nets w !! current_network).
  { rewrite <- H2. eapply retrain_nn_frame; [exact Ert|done|]. set_solver. }
  assert (H4 : nets w' !! old = nets w !! current_network).
  { by rewrite (keeps_nets_evaluate_networks _ _ _ _ _ _ _ _ Eev). }
  assert (Hnext : next = current_network ∨ next = old).
  { revert Eev. rewrite evaluate_networks_unfold.
    destruct (arena_loop _ _ _ _ _ _); [|done].
    destruct (10 =? 0); [done|].
    destruct (quotient_overflows _ _); [done|].
    destruct (PrimFloat.ltb _ _); intros [= <- _]; eauto. }
  exists eps, w1, old, w2, w3.
  split_and!; try done; eauto.
  - intros Hn. by destruct Hnext as [->| ->].
  - intros epochs. simpl. by rewrite (bind_step _ _ _ _ _ Hepoch).
Qed.

(** *** Games that end *)

(** A game whose boards have a rank that every move lowers ends within
    that many moves: with both networks in the heap and policies that are
    not empty, [play_game] returns on any fuel that is at least the rank of
    the initial board, and so do the games of the arena. *)
Lemma play_loop_enough_fuel (rank : State → nat) fuel a b s p (w : Wd) :
  (∀ s p action, truthy (state_getGameEnded s) = false →
                 (rank (getNextState s p action).1 < rank s)%nat) →
  (∀ q s, is_Some (torch_max (predict q s).1)) →
  is_Some (nets w !! a) → is_Some (nets w !! b) →
  (rank s ≤ fuel)%nat →
  ∃ s' p', play_loop fuel a b s p w = Return (s', p') w ∧
           truthy (state_getGameEnded s') = true.
Proof.
  intros Hrank Hpol [pa Ha] [pb Hb]. revert s p.
  induction fuel as [|fuel IH]; intros s p Hfuel; simpl;
    destruct (truthy (state_getGameEnded s)) eqn:Hend; eauto.
  - specialize (Hrank s p 0%nat Hend). lia.
  - unfold mbind, M_bind, get_net.
    assert (∃ q, nets w !! (if p =? 1 then a else b) = Some q) as [q ->].
    { destruct (p =? 1); eauto. }
    specialize (Hpol q s). destruct (predict q s) as [policy v].
    simpl in Hpol. destruct Hpol as [action ->].
    specialize (Hrank s p action Hend).
    destruct (getNextState s p action) as [s1 p1]. apply IH. simpl in *. lia.
Qed.

Lemma play_games_enough_fuel (rank : State → nat) fuel n a b (w : Wd) :
  (∀ s p action, truthy (state_getGameEnded s) = false →
                 (rank (getNextState s p action).1 < rank s)%nat) →
  (∀ q s, is_Some (torch_max (predict q s).1)) →
  is_Some (nets w !! a) → is_Some (nets w !! b) →
  (rank getInitBoard ≤ fuel)%nat →
  ∃ rs, play_games fuel n a b w = Return rs w.
Proof.
  intros Hrank Hpol Ha Hb Hfuel.
  destruct (play_loop_enough_fuel rank fuel a b getInitBoard 1 w
              Hrank Hpol Ha Hb Hfuel) as (s' & p' & E & _).
  assert (Hg : play_game fuel a b w = Return (state_getGameEnded s') w).
  { unfold play_game. rewrite (bind_step _ _ _ _ _ E).
    unfold terminal_read. by destruct (p' =? -1). }
  unfold play_games. induction n as [|n [rs IH]]; simpl; [by eexists|].
  exists (state_getGameEnded s' :: rs).
  by rewrite (bind_step _ _ _ _ _ Hg), (bind_step _ _ _ _ _ IH).
Qed.

End AgentFacts.

(** ** The agent on the concrete collaborators *)

(** The gate on the default threshold: seven wins in ten promote, six do
    not. *)
Example gate_seven_of_ten :
  PrimFloat.ltb default_threshold (true_quotient 7 10) = true.
Proof. vm_compute. reflexivity. Qed.

Example gate_six_of_ten :
  PrimFloat.ltb default_threshold (true_quotient 6 10) = false.
Proof. vm_compute. reflexivity. Qed.

(** Ten games with seven wins, a draw and two losses: the tally is [7] and
    the challenger is returned; with six wins the tally is [6], the win
    rate equals the threshold, and the incumbent is returned. *)
Lemma evaluate_networks_tally_and_gate_witness :
  (1 ≤ 10 ∧
   play_results (Toy.scripted Toy.seven_of_ten) (Z.to_nat 10)
     (arena_logged 0%nat 1%nat 10 Toy.world01)
   = Return Toy.seven_of_ten
       (mkWorld (nets Toy.world01) 10%nat [EvArena 0%nat 1%nat 10]) ∧
   tally Toy.seven_of_ten = 7 ∧
   evaluate_networks_over (Toy.scripted Toy.seven_of_ten) 0%nat 1%nat 10
     default_threshold Toy.world01
   = Return 0%nat
       (mkWorld (nets Toy.world01) 10%nat [EvArena 0%nat 1%nat 10])) ∧
  (play_results (Toy.scripted Toy.six_of_ten) (Z.to_nat 10)
     (arena_logged 0%nat 1%nat 10 Toy.world01)
   = Return Toy.six_of_ten
       (mkWorld (nets Toy.world01) 10%nat [EvArena 0%nat 1%nat 10]) ∧
   tally Toy.six_of_ten = 6 ∧
   evaluate_networks_over (Toy.scripted Toy.six_of_ten) 0%nat 1%nat 10
     default_threshold Toy.world01
   = Return 1%nat
       (mkWorld (nets Toy.world01) 10%nat [EvArena 0%nat 1%nat 10])).
Proof.
  assert (H1 : 1 ≤ 10) by lia.
  assert (H7 : play_results (Toy.scripted Toy.seven_of_ten) (Z.to_nat 10)
                 (arena_logged 0%nat 1%nat 10 Toy.world01)
               = Return Toy.seven_of_ten
                   (mkWorld (nets Toy.world01) 10%nat [EvArena 0%nat 1%nat 10]))
    by (vm_compute; reflexivity).
  assert (H6 : play_results (Toy.scripted Toy.six_of_ten) (Z.to_nat 10)
                 (arena_logged 0%nat 1%nat 10 Toy.world01)
               = Return Toy.six_of_ten
                   (mkWorld (nets Toy.world01) 10%nat [EvArena 0%nat 1%nat 10]))
    by (vm_compute; reflexivity).
  split.
  - split; [exact H1|]. split; [exact H7|]. split; [vm_compute; reflexivity|].
    exact (proj1 (proj2 (proj2 (proj2
             (evaluate_networks_tally_and_gate (gm := Toy.two_moves)
                (ev := Toy.counter_net) (Toy.scripted Toy.seven_of_ten)
                0%nat 1%nat 10 default_threshold Toy.world01
                Toy.seven_of_ten _ H1 H7))))).
  - split; [exact H6|]. split; [vm_compute; reflexivity|].
    exact (proj1 (proj2 (proj2 (proj2
             (evaluate_networks_tally_and_gate (gm := Toy.two_moves)
                (ev := Toy.counter_net) (Toy.scripted Toy.six_of_ten)
                0%nat 1%nat 10 default_threshold Toy.world01
                Toy.six_of_ten _ H1 H6))))).
Defined.

(** Two worlds with the same two networks, different in everything else. *)
Lemma evaluate_networks_deterministic_witness :
  let w2 := mkWorld (<[ 2%nat := 5 ]> (nets Toy.world01)) 42%nat
                    [EvRetrain 0%nat] in
  nets Toy.world01 !! 0%nat = nets w2 !! 0%nat ∧
  nets Toy.world01 !! 1%nat = nets w2 !! 1%nat ∧
  result_of (evaluate_networks (gm := Toy.first_loses) (ev := Toy.counter_net)
               5 0%nat 1%nat 10 default_threshold Toy.world01)
  = result_of (evaluate_networks (gm := Toy.first_loses) (ev := Toy.counter_net)
                 5 0%nat 1%nat 10 default_threshold w2).
Proof.
  intros w2.
  assert (H0 : nets Toy.world01 !! 0%nat = nets w2 !! 0%nat)
    by (vm_compute; reflexivity).
  assert (H1 : nets Toy.world01 !! 1%nat = nets w2 !! 1%nat)
    by (vm_compute; reflexivity).
  split; [exact H0|]. split; [exact H1|].
  exact (proj1 (proj2
           (evaluate_networks_deterministic (gm := Toy.first_loses)
              (ev := Toy.counter_net) 5 0%nat 1%nat 10 default_threshold
              Toy.world01 w2 H0 H1))).
Defined.


(** An episode of [first_loses]: two examples, recorded on the turns of
    player [1] and of player [-1], both with the outcome [-1] that the last
    board reads. *)
Lemma self_play_episode_outcome_shared_witness :
  self_play_episode (gm := Toy.first_loses) (ts := Toy.one_action)
    (rnd := Toy.counting) 5 Toy.agent 0%nat Toy.world0
  = Return [(0%nat, [1%float], (-1)%float); (1%nat, [1%float], (-1)%float)]
           (mkWorld (nets Toy.world0) 2%nat []) ∧
  ∃ turns s_end p_end game_states,
    episode_loop (gm := Toy.first_loses) (ts := Toy.one_action)
      (rnd := Toy.counting) 5 Toy.agent 0%nat 0%nat 1 [] Toy.world0
    = Return (s_end, game_states) (mkWorld (nets Toy.world0) 2%nat []) ∧
    episode_turns (gm := Toy.first_loses) (ts := Toy.one_action)
      (rnd := Toy.counting) 5 Toy.agent 0%nat 0%nat 1 [] Toy.world0
    = Return turns (mkWorld (nets Toy.world0) 2%nat []) ∧
    length turns = 2%nat ∧
    truthy (getGameEnded (Game := Toy.first_loses) s_end p_end) = true ∧
    ∀ i e, [(0%nat, [1%float], (-1)%float); (1%nat, [1%float], (-1)%float)] !! i
           = Some e → e.2 = state_getGameEnded (Game := Toy.first_loses) s_end.
Proof.
  assert (H : self_play_episode (gm := Toy.first_loses) (ts := Toy.one_action)
                (rnd := Toy.counting) 5 Toy.agent 0%nat Toy.world0
              = Return [(0%nat, [1%float], (-1)%float);
                        (1%nat, [1%float], (-1)%float)]
                       (mkWorld (nets Toy.world0) 2%nat []))
    by (vm_compute; reflexivity).
  split; [exact H|].
  destruct (self_play_episode_outcome_shared (gm := Toy.first_loses)
              (ts := Toy.one_action) (rnd := Toy.counting)
              5 Toy.agent 0%nat Toy.world0 _ _ H)
    as (turns & s_end & p_end & game_states & El & Ht & Hlen & _ & Hfin & _
        & Hall & _).
  exists turns, s_end, p_end, game_states.
  split; [exact El|]. split; [exact Ht|]. split; [exact Hlen|].
  split; [exact Hfin|exact Hall].
Defined.

(** C2, as stated, fails on an episode of [two_moves]: the two examples
    were recorded on opposite turns and their outcomes add up to [2], not to [0]. *)
Lemma self_play_outcomes_not_sign_flipped :
  self_play_episode (gm := Toy.two_moves) (ts := Toy.one_action)
    (rnd := Toy.counting) 5 Toy.agent 0%nat Toy.world0
  = Return [(0%nat, [1%float], 1%float); (1%nat, [1%float], 1%float)]
           (mkWorld (nets Toy.world0) 2%nat []) ∧
  episode_turns (gm := Toy.two_moves) (ts := Toy.one_action)
    (rnd := Toy.counting) 5 Toy.agent 0%nat 0%nat 1 [] Toy.world0
  = Return [1; -1] (mkWorld (nets Toy.world0) 2%nat []) ∧
  ¬ outcomes_sign_flipped [1; -1]
      [(0%nat, [1%float], 1%float); (1%nat, [1%float], 1%float)].
Proof.
  split; [vm_compute; reflexivity|]. split; [vm_compute; reflexivity|].
  intros Hflip.
  specialize (Hflip 0%nat 1%nat 1 (-1) _ _ eq_refl eq_refl eq_refl eq_refl
                eq_refl).
  vm_compute in Hflip. discriminate.
Qed.

(** A game that is over at the start: three episodes, no example. *)
Lemma self_play_terminal_start_witness :
  truthy (getGameEnded (Game := Toy.over_at_start)
            (getInitBoard (Game := Toy.over_at_start)) 1) = true ∧
  self_play (gm := Toy.over_at_start) (ts := Toy.one_action)
    (rnd := Toy.counting) 0 Toy.agent 0%nat 3 Toy.world0
  = Return [] (self_play_logged 0%nat 3 Toy.world0).
Proof.
  assert (H : truthy (getGameEnded (Game := Toy.over_at_start)
            (getInitBoard (Game := Toy.over_at_start)) 1)
              = true) by (vm_compute; reflexivity).
  split; [exact H|].
  exact (proj2 (self_play_terminal_start (gm := Toy.over_at_start)
                  (ts := Toy.one_action) (rnd := Toy.counting)
                  0 Toy.agent 0%nat 3 Toy.world0 H)).
Defined.

(** Four examples in batches of three: a batch of three and a batch of one. *)
Lemma batch_episodes_partition_witness :
  Toy.four_examples ≠ [] ∧ 1 ≤ 3 ≤ sys_maxsize ∧
  ∃ dl batches w',
    batch_episodes (ba := Toy.counted) Toy.four_examples 3 Toy.world0
      = Return dl Toy.world0 ∧
    iter_dataloader (rnd := Toy.counting) dl Toy.world0 = Return batches w' ∧
    mjoin (rows <$> batches)
      ≡ₚ to_tensor_row (ba := Toy.counted) <$> Toy.four_examples ∧
    sum_list ((λ b, length (x_train b)) <$> batches) = 4%nat.
Proof.
  assert (H1 : Toy.four_examples ≠ []) by discriminate.
  assert (H2 : ∀ e1 e2 : nat * list float * float,
            e1 ∈ Toy.four_examples → e2 ∈ Toy.four_examples →
            length (board_array (BoardArray := Toy.counted) e1.1.1)
            = length (board_array (BoardArray := Toy.counted) e2.1.1))
    by done.
  assert (H3 : ∀ e1 e2 : nat * list float * float,
            e1 ∈ Toy.four_examples → e2 ∈ Toy.four_examples →
            length e1.1.2 = length e2.1.2).
  { intros e1 e2 He1 He2.
    apply (proj1 (rectangular_true ((λ e, e.1.2) <$> Toy.four_examples)));
      [vm_compute; reflexivity | | ]; apply list_elem_of_fmap; eauto. }
  assert (H4 : 1 ≤ 3 ≤ sys_maxsize) by (unfold sys_maxsize; lia).
  split; [exact H1|]. split; [exact H4|].
  destruct (batch_episodes_partition (ba := Toy.counted) (rnd := Toy.counting)
              Toy.four_examples 3 Toy.world0 H1 H2 H3 H4)
    as (dl & batches & w' & Hdl & Hit & Hperm & Hsum & _).
  exists dl, batches, w'. split; [exact Hdl|]. split; [exact Hit|].
  split; [exact Hperm|exact Hsum].
Defined.

(** C4, as stated, fails in two places. A batch size above [sys.maxsize]
    is at least one, and the loader is built, but the pass over it raises
    [ValueError] and yields no mini-batch. And examples whose policy
    targets are of one length but whose boards are not of one shape do not
    reach a loader at all. *)
Lemma batch_episodes_partition_fails :
  Toy.four_examples ≠ [] ∧
  rectangular ((λ e, e.1.2) <$> Toy.four_examples) = true ∧
  1 ≤ 2 ^ 63 ∧
  (∃ dl,
     batch_episodes (ba := Toy.counted) Toy.four_examples (2 ^ 63) Toy.world0
       = Return dl Toy.world0 ∧
     iter_dataloader (rnd := Toy.counting) dl Toy.world0 = Raise ValueError) ∧
  batch_episodes (ba := Toy.growing) Toy.four_examples 3 Toy.world0
    = Raise ValueError.
Proof.
  split; [discriminate|]. split; [vm_compute; reflexivity|].
  split; [by vm_compute|]. split.
  - exists (mkLoader (dataset_of (to_tensor_row (ba := Toy.counted)
                                    <$> Toy.four_examples))
                     (Z.to_nat (2 ^ 63))).
    split.
    + rewrite batch_episodes_unfold by discriminate.
      destruct (rectangular (board_array <$> _)) eqn:R1;
        [|vm_compute in R1; discriminate].
      destruct (rectangular _) eqn:R2; [|vm_compute in R2; discriminate].
      destruct (2 ^ 63 <=? 0) eqn:Hz; [vm_compute in Hz; discriminate|].
      reflexivity.
    + apply iter_dataloader_too_large. rewrite Z2Nat.id; [|by vm_compute].
      unfold sys_maxsize. lia.
  - vm_compute. reflexivity.
Qed.

(** A policy of one entry and a policy of two. *)
Lemma batch_episodes_ragged_witness :
  batch_episodes (ba := Toy.counted) (Rng := nat) (Params := Z)
    Toy.ragged_examples 3 Toy.world0
  = Raise ValueError.
Proof.
  refine (proj1 (batch_episodes_ragged (ba := Toy.counted)
                   (ev := Toy.counter_net)
                   (rnd := Toy.counting) Toy.ragged_examples 3 Toy.world0
                   (0%nat, [1%float], 1%float)
                   (1%nat, [1%float; 0%float], 1%float) _ _ _)).
  - apply list_elem_of_here.
  - apply list_elem_of_further, list_elem_of_here.
  - simpl. lia.
Defined.

(** An epoch on [first_loses]: the retrained network [0] loses all ten
    games, and the epoch carries on with the snapshot [1], which still holds
    the [7] that network [0] held before retraining. *)
Lemma epoch_keeps_incumbent_witness :
  optimizer Toy.agent ⊆ dom (nets Toy.world0) ∧
  epoch (gm := Toy.first_loses) (ba := Toy.counted) (ev := Toy.counter_net) (ts := Toy.one_action)
    (rnd := Toy.counting) 5 Toy.agent 0%nat 3 2 Toy.world0
  = Return 1%nat Toy.world_after_epoch ∧
  nets Toy.world_after_epoch !! 1%nat = nets Toy.world0 !! 0%nat ∧
  nets Toy.world_after_epoch !! 0%nat = Some 11.
Proof.
  assert (H1 : optimizer Toy.agent ⊆ dom (nets Toy.world0)).
  { apply (bool_decide_unpack (optimizer Toy.agent ⊆ dom (nets Toy.world0))).
    vm_compute. exact I. }
  assert (H2 : epoch (gm := Toy.first_loses) (ba := Toy.counted) (ev := Toy.counter_net)
                 (ts := Toy.one_action) (rnd := Toy.counting)
                 5 Toy.agent 0%nat 3 2 Toy.world0
               = Return 1%nat Toy.world_after_epoch)
    by (vm_compute; reflexivity).
  split; [exact H1|]. split; [exact H2|].
  destruct (epoch_keeps_incumbent (gm := Toy.first_loses) (ba := Toy.counted)
              (ev := Toy.counter_net) (ts := Toy.one_action)
              (rnd := Toy.counting) 5 Toy.agent 0%nat 3 2 Toy.world0
              1%nat Toy.world_after_epoch H1 H2)
    as (eps & w1 & old & w2 & w3 & _ & _ & _ & _ & _ & _ & _ & _ & _ & _ & _
        & Hkeep & _).
  split; [|vm_compute; reflexivity].
  exact (proj2 (Hkeep ltac:(discriminate))).
Defined.

(** ** More about the arena *)

Section ArenaFacts.
Context {Params State Rng : Type}.
Context {gm : Game State} {ev : Evaluator Params State}.

Abbreviation Wa := (World Params Rng).

Lemma play_loop_ended fuel a b s p (w : Wa) s' p' w' :
  play_loop fuel a b s p w = Return (s', p') w' →
  truthy (state_getGameEnded s') = true.
Proof.
  revert s p. induction fuel as [|fuel IH]; intros s p; simpl;
    destruct (truthy (state_getGameEnded s)) eqn:Hend;
    try (by intros [= <- _ _]); try done.
  unfold mbind, M_bind, get_net.
  destruct (nets w !! _) as [q|]; [|done].
  destruct (predict q s) as [policy v].
  destruct (torch_max policy) as [action|]; [|done].
  destruct (getNextState s p action) as [s1 p1]. apply IH.
Qed.

(** The loop of [play_game] is left only on a board whose [getGameEnded()]
    is true, and that value is what is returned: a game never returns [0]
    (of either sign), and it leaves the world as it found it. *)
Theorem play_game_result_truthy fuel a b (w : Wa) r w' :
  play_game fuel a b w = Return r w' →
  truthy r = true ∧ PrimFloat.eqb r 0%float = false ∧ w' = w.
Proof.
  intros E. pose proof (reads_only_world a b _ _ _ _
                          (reads_only_play_game fuel a b) E) as ->.
  revert E. unfold play_game.
  intros ([s p] & w1 & El & Er)%bind_Return.
  apply play_loop_ended in El. revert Er. unfold terminal_read.
  assert (Hr : ∀ x, x = state_getGameEnded s →
                    truthy x = true ∧ PrimFloat.eqb x 0%float = false).
  { intros x ->. split; [done|]. unfold truthy in El.
    by destruct (PrimFloat.eqb _ _). }
  destruct (p =? -1); intros [= <- _]; split_and!; try done; by apply Hr.
Qed.

Lemma play_games_replicate fuel n a b (w : Wa) r w0 :
  play_game fuel a b w = Return r w0 →
  play_games fuel n a b w = Return (replicate n r) w.
Proof.
  intros E. pose proof (reads_only_world a b _ _ _ _
                          (reads_only_play_game fuel a b) E) as ->.
  unfold play_games. induction n as [|n IH]; simpl; [done|].
  by rewrite (bind_step _ _ _ _ _ E), (bind_step _ _ _ _ _ IH).
Qed.

Lemma tally_replicate n r :
  tally (replicate n r) = if positive_result r then Z.of_nat n else 0.
Proof.
  induction n as [|n IH]; [by destruct (positive_result r)|].
  simpl replicate. rewrite tally_cons, IH.
  destruct (positive_result r); lia.
Qed.

(** The games of one arena are one game played again: same initial board,
    same seats, same greedy moves. All results are equal, and the tally is
    nothing or all. *)
Theorem arena_games_identical fuel n a b (w : Wa) rs w' :
  play_games fuel n a b w = Return rs w' →
  w' = w ∧
  (∀ r1 r2, r1 ∈ rs → r2 ∈ rs → r1 = r2) ∧
  (∀ r, r ∈ rs → play_game fuel a b w = Return r w ∧ rs = replicate n r) ∧
  (tally rs = 0 ∨ tally rs = Z.of_nat n) ∧
  arena_loop fuel n a b 0 w = Return (tally rs) w.
Proof.
  intros E. pose proof (reads_only_world a b _ _ _ _
                          (reads_only_play_games fuel n a b) E) as ->.
  assert (Hall : ∀ r, r ∈ rs →
            play_game fuel a b w = Return r w ∧ rs = replicate n r).
  { destruct n as [|n].
    - unfold play_games in E. simpl in E. injection E as <-.
      intros r Hr. by apply elem_of_nil in Hr.
    - pose proof E as E'. unfold play_games in E'. simpl in E'.
      apply bind_Return in E' as (r0 & w1 & E0 & E1).
      pose proof (play_games_replicate fuel (S n) a b w r0 w1 E0) as Hrep.
      rewrite E in Hrep. injection Hrep as Hrs.
      change (rs = replicate (S n) r0) in Hrs.
      pose proof (reads_only_world a b _ _ _ _
                    (reads_only_play_game fuel a b) E0) as ->.
      intros r Hr. rewrite Hrs in Hr. apply elem_of_replicate in Hr as [-> _].
      by rewrite <- Hrs. }
  split; [done|]. split_and!.
  - intros r1 r2 Hr1 Hr2.
    destruct (Hall _ Hr1) as [_ H1]. destruct (Hall _ Hr2) as [_ H2].
    destruct n; [rewrite H1 in Hr1; by apply elem_of_nil in Hr1|].
    rewrite H1 in H2. by injection H2.
  - done.
  - destruct rs as [|r rs']; [by left|].
    destruct (Hall r) as [_ ->]; [by left|]. rewrite tally_replicate.
    destruct (positive_result r); eauto.
  - by rewrite (arena_loop_tally _ _ _ _ 0 _ _ _ E).
Qed.

(** With the ten games [train] asks for, the win rate is [10/10] or [0/10]:
    the outcome of the one game decides. On the default threshold the
    challenger is returned exactly when that game's result is greater than
    zero. *)
Theorem evaluate_networks_ten_games fuel a b threshold (w : Wa) r w0 :
  play_game fuel a b w = Return r w0 →
  evaluate_networks fuel a b 10 threshold w =
    Return (if positive_result r
            then (if PrimFloat.ltb threshold 1%float then a else b)
            else (if PrimFloat.ltb threshold 0%float then a else b))
           (arena_logged a b 10 w) ∧
  evaluate_networks fuel a b 10 default_threshold w =
    Return (if positive_result r then a else b) (arena_logged a b 10 w).
Proof.
  intros E.
  assert (Hrs : result_of (play_games fuel (Z.to_nat 10) a b w)
                = inr (replicate 10 r)).
  { change (Z.to_nat 10) with 10%nat.
    by rewrite (play_games_replicate fuel 10 a b w r w0 E). }
  assert (Hev := λ t, evaluate_networks_returns fuel a b 10 t w
                        (replicate 10 r) ltac:(lia) Hrs).
  rewrite tally_replicate in Hev.
  split; rewrite Hev; destruct (positive_result r); try done.
Qed.

(** The arena writes no network and draws no random number: a run that
    returns leaves the world it found, with one more event in the trace,
    and what it returns is one of the two handles it was given. *)
Theorem evaluate_networks_read_only fuel a b num_games threshold (w : Wa)
    winner w' :
  evaluate_networks fuel a b num_games threshold w = Return winner w' →
  w' = arena_logged a b num_games w ∧ nets w' = nets w ∧ rng w' = rng w ∧
  (winner = a ∨ winner = b) ∧ num_games ≠ 0.
Proof.
  rewrite evaluate_networks_unfold.
  destruct (arena_loop _ _ _ _ _ _) as [wins u|e] eqn:El; [|done].
  apply (reads_only_world a b) in El as ->; [|apply reads_only_arena_loop].
  destruct (num_games =? 0) eqn:Hz; [done|]. apply Z.eqb_neq in Hz.
  destruct (quotient_overflows _ _); [done|].
  destruct (PrimFloat.ltb _ _); intros [= <- <-]; split_and!; eauto.
Qed.

End ArenaFacts.

(** ** More about the greedy move *)

Lemma argmax_from_bound best bi i l :
  (bi < i)%nat → (argmax_from best bi i l < i + length l)%nat.
Proof.
  revert best bi i. induction l as [|x l IH]; intros best bi i Hi; simpl.
  - lia.
  - destruct (beats x best).
    + specialize (IH x i (S i)). lia.
    + specialize (IH best bi (S i)). lia.
Qed.

(** The greedy move exists exactly when the policy has an entry, and it is
    an index of the policy. *)
Theorem torch_max_in_range (policy : list float) :
  (torch_max policy = None ↔ policy = []) ∧
  (∀ action, torch_max policy = Some action →
             (action < length policy)%nat ∧ is_Some (policy !! action)).
Proof.
  split.
  - by destruct policy.
  - intros action. destruct policy as [|x l]; [done|]. simpl.
    intros [= <-].
    pose proof (argmax_from_bound x 0%nat 1%nat l ltac:(lia)) as Hb.
    split; [lia|]. apply lookup_lt_is_Some. simpl. lia.
Qed.

(** ** More about batching and retraining *)

Section BatchFacts.
Context {Params State Rng : Type}.
Context {gm : Game State} {ba : BoardArray State}
        {ev : Evaluator Params State}
        {ts : TreeSearch Params State Rng} {rnd : Random Rng}.

Abbreviation Wb := (World Params Rng).


Lemma chunks_count {A} fuel size (l : list A) :
  (1 ≤ size)%nat → (length l ≤ fuel)%nat →
  (length l ≤ length (chunks fuel size l) * size ∧
   length (chunks fuel size l) * size < length l + size)%nat.
Proof.
  intros Hs. revert l. induction fuel as [|fuel IH]; intros l Hl.
  - destruct l; simpl in *; lia.
  - destruct l as [|x l]; [simpl; lia|].
    cbn [chunks]. specialize (IH (drop size (x :: l))).
    rewrite length_drop in IH. cbn [length] in *.
    destruct IH as [IH1 IH2]; [lia|].
    generalize dependent (length (chunks fuel size (drop size (x :: l)))).
    intros m IH1 IH2.
    destruct (Nat.le_gt_cases (S (length l)) size) as [Hle|Hgt].
    + replace (S (length l) - size)%nat with 0%nat in * by lia.
      assert (m = 0%nat) as -> by nia. lia.
    + assert (S (length l) - size + size = S (length l))%nat as Heq by lia.
      rewrite Heq in IH2. lia.
Qed.

Lemma chunks_sizes {A} fuel size (l : list A) c :
  (1 ≤ size)%nat → (length l ≤ fuel)%nat → c ∈ chunks fuel size l →
  (1 ≤ length c ≤ size)%nat.
Proof.
  intros Hs Hl (k & Hk)%list_elem_of_lookup_1.
  apply chunks_lookup in Hk as [-> Hk]; [|done..].
  rewrite length_take, length_drop. lia.
Qed.

Lemma ceil_div_unique (n size m : nat) :
  (1 ≤ size)%nat → (n ≤ m * size)%nat → (m * size < n + size)%nat →
  m = ((n + size - 1) / size)%nat.
Proof.
  intros Hs H1 H2.
  apply (Nat.div_unique _ _ _ (n + size - 1 - size * m)); nia.
Qed.

(** One pass over a loader that [batch_episodes] built: as many
    mini-batches as [n / batch_size] rounded up, none empty and none
    larger than [batch_size]; the pass draws from the generator and writes
    nothing else. *)
Theorem iter_dataloader_batch_count
    (train_data : list (State * list float * float)) batch_size
    (w : Wb) dl w1 batches w' :
  batch_episodes train_data batch_size w = Return dl w1 →
  iter_dataloader dl w1 = Return batches w' →
  length batches
    = ((length train_data + Z.to_nat batch_size - 1) / Z.to_nat batch_size)%nat ∧
  (∀ b, b ∈ batches →
        (1 ≤ length (x_train b) ≤ Z.to_nat batch_size)%nat) ∧
  nets w' = nets w ∧ trace w' = trace w.
Proof.
  intros Hdl Hit.
  assert (Hne : train_data ≠ []).
  { intros ->. done. }
  rewrite batch_episodes_unfold in Hdl by done.
  destruct (rectangular (board_array <$> _)); [|done].
  destruct (rectangular _); [|done].
  destruct (batch_size <=? 0) eqn:Hz; [done|]. injection Hdl as <- <-.
  destruct (Z.lt_ge_cases sys_maxsize (Z.of_nat (Z.to_nat batch_size)))
    as [Hbig|Hsmall].
  { by rewrite iter_dataloader_too_large in Hit. }
  destruct (iter_dataloader_chunks (to_tensor_row <$> train_data)
              (Z.to_nat batch_size) w Hsmall)
    as (items & g & Hpi & Hiter).
  rewrite Hiter in Hit. injection Hit as <- <-.
  assert (Hsize : (1 ≤ Z.to_nat batch_size)%nat) by lia.
  assert (Hlen : length items = length train_data).
  { by rewrite (Permutation_length Hpi), length_fmap. }
  rewrite length_fmap, <- Hlen.
  split_and!; try done.
  - pose proof (chunks_count (length items) (Z.to_nat batch_size) items
                  Hsize ltac:(lia)) as [H1 H2].
    by apply ceil_div_unique.
  - intros b (c & -> & Hc)%list_elem_of_fmap. simpl. rewrite length_fmap.
    by eapply chunks_sizes.
Qed.

Lemma fit_foldl self h batches (w : Wb) :
  fit self h batches w =
  Return () (mkWorld (foldl (λ σ b, fit_batch (optimizer self) h b σ)
                            (nets w) batches) (rng w) (trace w)).
Proof.
  revert w. induction batches as [|b rest IH]; intros w; simpl.
  - by destruct w.
  - unfold mbind, M_bind, optimizer_step. by rewrite IH.
Qed.

(** The world [retrain_nn] batches in. *)
Definition retrain_logged (h : handle) (w : Wb) : Wb :=
  mkWorld (nets w) (rng w) (trace w ++ [EvRetrain h]).

Lemma retrain_nn_good self h (d : list (State * list float * float))
    batch_size (w : Wb) :
  d ≠ [] →
  rectangular (board_array <$> ((λ e : State * list float * float, e.1.1) <$> d)) = true →
  rectangular ((λ e : State * list float * float, e.1.2) <$> d) = true →
  1 ≤ batch_size ≤ sys_maxsize →
  ∃ items g,
    items ≡ₚ to_tensor_row <$> d ∧
    batch_episodes d batch_size (retrain_logged h w)
    = Return (mkLoader (dataset_of (to_tensor_row <$> d))
                       (Z.to_nat batch_size)) (retrain_logged h w) ∧
    iter_dataloader (mkLoader (dataset_of (to_tensor_row <$> d))
                              (Z.to_nat batch_size)) (retrain_logged h w)
    = Return (collate <$> chunks (length items) (Z.to_nat batch_size) items)
             (mkWorld (nets w) g (trace w ++ [EvRetrain h])) ∧
    retrain_nn self h d batch_size w =
    Return () (mkWorld
                 (foldl (λ σ b, fit_batch (optimizer self) h b σ) (nets w)
                    (collate <$> chunks (length items) (Z.to_nat batch_size)
                                        items))
                 g (trace w ++ [EvRetrain h])).
Proof.
  intros Hne Hboards Hrect Hbs.
  assert (Hdl : batch_episodes d batch_size (retrain_logged h w)
                = Return (mkLoader (dataset_of (to_tensor_row <$> d))
                                   (Z.to_nat batch_size)) (retrain_logged h w)).
  { rewrite batch_episodes_unfold by done. rewrite Hboards, Hrect.
    by destruct (batch_size <=? 0) eqn:Hz; [lia|]. }
  destruct (iter_dataloader_chunks (to_tensor_row <$> d) (Z.to_nat batch_size)
              (retrain_logged h w) ltac:(lia))
    as (items & g & Hpi & Hiter).
  exists items, g. split_and!; try done.
  unfold retrain_nn, mbind, M_bind, log.
  fold (retrain_logged h w). by rewrite Hdl, Hiter, fit_foldl.
Qed.

(** Retraining on data that batches: it returns, having taken one
    optimisation step per mini-batch, in the order of the pass, that is
    [n / batch_size] rounded up steps over mini-batches that hold every
    example once, as the float32 tensors hold it. *)
Theorem retrain_nn_steps self h
    (train_data : list (State * list float * float)) batch_size (w : Wb) :
  train_data ≠ [] →
  (∀ e1 e2, e1 ∈ train_data → e2 ∈ train_data →
            length (board_array e1.1.1) = length (board_array e2.1.1)) →
  (∀ e1 e2, e1 ∈ train_data → e2 ∈ train_data →
            length e1.1.2 = length e2.1.2) →
  1 ≤ batch_size ≤ sys_maxsize →
  ∃ batches w',
    retrain_nn self h train_data batch_size w = Return () w' ∧
    mjoin (rows <$> batches) ≡ₚ to_tensor_row <$> train_data ∧
    length batches
      = ((length train_data + Z.to_nat batch_size - 1)
         / Z.to_nat batch_size)%nat ∧
    nets w' = foldl (λ σ b, fit_batch (optimizer self) h b σ) (nets w) batches ∧
    trace w' = trace w ++ [EvRetrain h].
Proof.
  intros Hne Hboards Hhom Hbs.
  assert (Hb : rectangular (board_array <$> ((λ e : State * list float * float, e.1.1) <$> train_data))
               = true).
  { apply rectangular_true.
    intros x y (s1 & -> & (e1 & -> & H1)%list_elem_of_fmap)%list_elem_of_fmap
      (s2 & -> & (e2 & -> & H2)%list_elem_of_fmap)%list_elem_of_fmap.
    by apply Hboards. }
  assert (Hrect : rectangular ((λ e : State * list float * float, e.1.2) <$> train_data) = true).
  { apply rectangular_true. intros x y (e1 & -> & H1)%list_elem_of_fmap
      (e2 & -> & H2)%list_elem_of_fmap. by apply Hhom. }
  destruct (retrain_nn_good self h train_data batch_size w Hne Hb Hrect Hbs)
    as (items & g & Hpi & _ & _ & ->).
  assert (Hsize : (1 ≤ Z.to_nat batch_size)%nat) by lia.
  assert (Hlen : length items = length train_data).
  { by rewrite (Permutation_length Hpi), length_fmap. }
  eexists _, _. split; [done|]. split_and!; try done.
  - assert (rows <$> (collate <$>
                chunks (length items) (Z.to_nat batch_size) items)
            = chunks (length items) (Z.to_nat batch_size) items) as ->.
    { rewrite <- list_fmap_compose.
      rewrite <- (list_fmap_id (chunks _ _ _)) at 2.
      apply list_fmap_ext. intros i c _. apply rows_collate. }
    by rewrite chunks_concat.
  - rewrite length_fmap, <- Hlen.
    pose proof (chunks_count (length items) (Z.to_nat batch_size) items
                  Hsize ltac:(lia)) as [H1 H2].
    by apply ceil_div_unique.
Qed.


End BatchFacts.

(** ** More about self play *)

Section SelfPlayFacts.
Context {Params State Rng : Type}.
Context {gm : Game State} {ba : BoardArray State}
        {ev : Evaluator Params State}
        {ts : TreeSearch Params State Rng} {rnd : Random Rng}.

Abbreviation Ws := (World Params Rng).

(** The states an episode records are the boards of one play of the game,
    in order: the first is the initial board with player [1] to move, no
    recorded board was over for the player to move on it, each next board
    comes from a move on the one before, and the play went on to a board
    that is over, whose [getGameEnded()] is the outcome of every example. *)
Theorem self_play_episode_path fuel self model (w : Ws) exs w' :
  self_play_episode fuel self model w = Return exs w' →
  ∃ turns s_end p_end,
    episode_turns fuel self model getInitBoard 1 [] w = Return turns w' ∧
    length turns = length exs ∧
    episode_path getInitBoard 1 (zip ((λ e, e.1.1) <$> exs) turns)
                 s_end p_end ∧
    truthy (getGameEnded s_end p_end) = true ∧
    (∀ e, e ∈ exs → e.2 = state_getGameEnded s_end).
Proof.
  unfold self_play_episode. intros ([s gs] & w1 & E & Hret)%bind_Return.
  unfold mret, M_ret in Hret. injection Hret as <- <-.
  apply (episode_loop_path _ _ _ _ _ _ []) in E
    as (new_states & new_turns & p' & -> & Hlen & E & Hpath & Hfin).
  exists new_turns, s, p'. simpl in *.
  split_and!; try done.
  - by rewrite length_fmap.
  - rewrite <- list_fmap_compose.
    assert (((λ e : State * list float * float, e.1.1)
               ∘ label (state_getGameEnded s)) <$> new_states
            = fst <$> new_states) as ->; [|done].
    by apply list_fmap_ext.
  - by intros e (sp & -> & _)%list_elem_of_fmap.
Qed.

(** The loop of [self_play] is the episodes run one after the other, what
    each returns appended to what was there. *)
Lemma self_play_loop_runs fuel self model n acc (w : Ws) :
  self_play_loop fuel self model n acc w
  = (episodes ← episode_runs fuel self model n;
     mret (acc ++ mjoin episodes)) w.
Proof.
  revert acc w. induction n as [|n IH]; intros acc w; simpl.
  - unfold mbind, M_bind, mret, M_ret. by rewrite app_nil_r.
  - unfold mbind, M_bind.
    destruct (self_play_episode fuel self model w) as [new w1|e]; [|done].
    rewrite IH. unfold mbind, M_bind.
    destruct (episode_runs fuel self model n w1) as [rest w2|e]; [|done].
    unfold mret, M_ret. simpl. by rewrite app_assoc.
Qed.

Lemma keeps_nets_self_play_episode fuel self model :
  keeps_nets (self_play_episode fuel self model).
Proof.
  unfold self_play_episode.
  apply keeps_nets_bind; [apply keeps_nets_episode_loop|].
  intros [s gs]. apply keeps_nets_ret.
Qed.

(** Each of the episodes run is what one call of the episode returned, in
    a world with the networks as they were, and carries one outcome. *)
Lemma episode_runs_each fuel self model n (w : Ws) episodes w' :
  episode_runs fuel self model n w = Return episodes w' →
  length episodes = n ∧ nets w' = nets w ∧
  Forall (λ ep, ∃ u u', nets u = nets w ∧
                  self_play_episode fuel self model u = Return ep u' ∧
                  ∃ r, ∀ e, e ∈ ep → e.2 = r) episodes.
Proof.
  revert w episodes. induction n as [|n IH]; intros w episodes; simpl.
  - intros [= <- <-]. by split_and!.
  - intros (new & w1 & E1 & (rest & w2 & E2 & Hret)%bind_Return)%bind_Return.
    unfold mret, M_ret in Hret. injection Hret as <- <-.
    apply IH in E2 as (Hlen & Hnets & Hall).
    pose proof (keeps_nets_self_play_episode _ _ _ _ _ _ E1) as Hn1.
    split_and!.
    + simpl. by rewrite Hlen.
    + by rewrite Hnets.
    + constructor.
      * exists w, w1. split_and!; try done.
        revert E1. unfold self_play_episode.
        intros ([s gs] & w3 & _ & Hret)%bind_Return.
        unfold mret, M_ret in Hret. injection Hret as <- _.
        exists (state_getGameEnded s).
        by intros e (sp & -> & _)%list_elem_of_fmap.
      * eapply Forall_impl; [exact Hall|]. simpl.
        intros ep (u & u' & Hu & Hep & Hr). exists u, u'.
        split_and!; try done. by rewrite Hu.
Qed.

(** [self_play] is its trace entry and then [num_episodes] episodes run one
    after the other, and what it returns is what those episodes returned,
    joined in order: each part is the return of one episode, run on the
    networks as they were, and carries one outcome; no network is
    written. *)
Theorem self_play_grouped fuel self model num_episodes (w : Ws) exs w' :
  self_play fuel self model num_episodes w = Return exs w' →
  nets w' = nets w ∧
  (∀ u : Ws, self_play fuel self model num_episodes u
     = (log (EvSelfPlay model num_episodes);;
        episodes ← episode_runs fuel self model (Z.to_nat num_episodes);
        mret (mjoin episodes)) u) ∧
  ∃ episodes : list (list (State * list float * float)),
    episode_runs fuel self model (Z.to_nat num_episodes)
      (self_play_logged model num_episodes w) = Return episodes w' ∧
    length episodes = Z.to_nat num_episodes ∧ exs = mjoin episodes ∧
    Forall (λ ep, ∃ u u', nets u = nets w ∧
                    self_play_episode fuel self model u = Return ep u' ∧
                    ∃ r, ∀ e, e ∈ ep → e.2 = r) episodes.
Proof.
  intros E. split; [by eapply keeps_nets_self_play|].
  assert (Heq : ∀ u : Ws, self_play fuel self model num_episodes u
     = (log (EvSelfPlay model num_episodes);;
        episodes ← episode_runs fuel self model (Z.to_nat num_episodes);
        mret (mjoin episodes)) u).
  { intros u. unfold self_play, mbind at 1 3. unfold M_bind at 1 3, log.
    by rewrite self_play_loop_runs. }
  split; [exact Heq|].
  rewrite Heq in E. apply bind_Return in E as ([] & w1 & El & E).
  unfold log in El. injection El as <-.
  apply bind_Return in E as (episodes & w2 & Er & Hret).
  unfold mret, M_ret in Hret. injection Hret as <- <-.
  exists episodes. fold (self_play_logged model num_episodes w) in Er.
  split; [exact Er|].
  apply episode_runs_each in Er as (Hlen & _ & Hall). by split_and!.
Qed.

End SelfPlayFacts.

(** ** More about the training loop *)

Section TrainFacts.
Context {Params State Rng : Type}.
Context {gm : Game State} {ba : BoardArray State}
        {ev : Evaluator Params State}
        {ts : TreeSearch Params State Rng} {rnd : Random Rng}.

Abbreviation Wt := (World Params Rng).

Lemma epoch_Return fuel self c bs ne (w : Wt) next w' :
  epoch fuel self c bs ne w = Return next w' →
  ∃ eps w1 old w2 w3,
    self_play fuel self c ne w = Return eps w1 ∧
    deepcopy c w1 = Return old w2 ∧
    retrain_nn self c eps bs w2 = Return () w3 ∧
    evaluate_networks fuel c old 10 default_threshold w3 = Return next w'.
Proof.
  unfold epoch.
  intros (eps & w1 & Esp & (old & w2 & Edc & ([] & w3 & Ert & Eev)%bind_Return)
            %bind_Return)%bind_Return.
  by exists eps, w1, old, w2, w3.
Qed.

Lemma self_play_nothing fuel self model num_episodes (w : Wt) :
  num_episodes ≤ 0 ∨ truthy (getGameEnded getInitBoard 1) = true →
  self_play fuel self model num_episodes w =
    Return [] (self_play_logged model num_episodes w).
Proof.
  intros Hc. unfold self_play, mbind, M_bind, log. simpl.
  destruct Hc as [Hneg|Hend].
  - by replace (Z.to_nat num_episodes) with O by lia.
  - apply self_play_loop_nothing. unfold self_play_episode, mbind, M_bind.
    destruct fuel; simpl; by rewrite Hend.
Qed.

(** An epoch whose self play brings no example does not get past
    retraining: with no episode asked for, or on a game that is over at
    the start, [train] over one epoch or more raises [ValueError] (the
    empty data does not unpack into states, policies and results). *)
Theorem train_without_examples fuel self neural_network train_batch_size
    num_epochs num_episodes (w : Wt) :
  is_Some (nets w !! neural_network) →
  1 ≤ num_epochs →
  num_episodes ≤ 0 ∨ truthy (getGameEnded getInitBoard 1) = true →
  train fuel self neural_network train_batch_size num_epochs num_episodes w
    = Raise ValueError.
Proof.
  intros [q Hq] Hep Hc. unfold train.
  destruct (Z.to_nat num_epochs) as [|k] eqn:Hk; [lia|]. simpl.
  unfold mbind at 1. unfold M_bind. unfold epoch.
  rewrite (bind_step _ _ _ _ _
             (self_play_nothing fuel self neural_network num_episodes w Hc)).
  unfold mbind, M_bind, deepcopy, self_play_logged. simpl. by rewrite Hq.
Qed.

(** An epoch writes the network it trains, the optimizer's networks and
    the new snapshot, and nothing else; the handle it carries on with is
    the trained network or the snapshot. *)
Lemma epoch_frame fuel self c bs ne (w : Wt) next w' k :
  epoch fuel self c bs ne w = Return next w' →
  is_Some (nets w !! k) → k ≠ c → k ∉ optimizer self →
  nets w' !! k = nets w !! k ∧ next ≠ k.
Proof.
  intros (eps & w1 & old & w2 & w3 & Esp & Edc & Ert & Eev)%epoch_Return
         Hk Hkc Hopt.
  pose proof (keeps_nets_self_play _ _ _ _ _ _ _ Esp) as Hn1.
  pose proof (deepcopy_Return _ _ _ _ Edc) as (Hfresh & p & Hp & Hn2).
  rewrite Hn1 in Hfresh, Hn2.
  assert (Hold : old ≠ k).
  { intros ->. by apply Hfresh, elem_of_dom. }
  pose proof (keeps_nets_evaluate_networks _ _ _ _ _ _ _ _ Eev) as Hn4.
  split.
  - rewrite Hn4, (retrain_nn_frame _ _ _ _ _ _ _ Ert Hkc Hopt), Hn2.
    by apply lookup_insert_ne.
  - revert Eev. rewrite evaluate_networks_unfold.
    destruct (arena_loop _ _ _ _ _ _); [|done].
    destruct (10 =? 0); [done|].
    destruct (quotient_overflows _ _); [done|].
    by destruct (PrimFloat.ltb _ _); intros [= <- _].
Qed.

(** A network that was there before [train], other than the one given to
    it and those of the optimizer, holds after [train] what it held
    before, and is not the network [train] returns. *)
Theorem train_frame fuel self neural_network train_batch_size num_epochs
    num_episodes (w : Wt) next w' k :
  train fuel self neural_network train_batch_size num_epochs num_episodes w
    = Return next w' →
  is_Some (nets w !! k) → k ≠ neural_network → k ∉ optimizer self →
  nets w' !! k = nets w !! k ∧ next ≠ k.
Proof.
  unfold train. generalize (Z.to_nat num_epochs) as epochs.
  intros epochs. revert neural_network w.
  induction epochs as [|epochs IH]; intros c w; simpl.
  - intros [= <- <-] _ Hkc _. by split.
  - intros (c1 & w1 & E1 & E2)%bind_Return Hk Hkc Hopt.
    destruct (epoch_frame _ _ _ _ _ _ _ _ k E1 Hk Hkc Hopt) as [Hn1 Hc1].
    destruct (IH c1 w1 E2) as [Hn2 Hnext]; [by rewrite Hn1|done|done|].
    split; [by rewrite Hn2|done].
Qed.

Lemma arena_ten_default fuel a b (w : Wt) winner w' :
  evaluate_networks fuel a b 10 default_threshold w = Return winner w' →
  ∃ r, play_game fuel a b w = Return r w ∧
       winner = if positive_result r then a else b.
Proof.
  intros E. pose proof E as E0. revert E0. rewrite evaluate_networks_unfold.
  destruct (arena_loop _ _ _ _ _ _) as [wins u|e] eqn:El; [|done]. intros _.
  change (Z.to_nat 10) with 10%nat in El. simpl in El.
  apply bind_Return in El as (r & u1 & Er & _).
  assert (Hr : play_game fuel a b w = Return r w).
  { apply (reads_only_Return a b); [apply reads_only_play_game|].
    rewrite (reads_only_result a b _ (arena_logged a b 10 w) w
               (reads_only_play_game fuel a b) eq_refl eq_refl).
    by rewrite Er. }
  exists r. split; [done|].
  assert (Hrs : result_of (play_games fuel (Z.to_nat 10) a b w)
                = inr (replicate 10 r)).
  { change (Z.to_nat 10) with 10%nat.
    by rewrite (play_games_replicate fuel 10 a b w r w Hr). }
  rewrite (evaluate_networks_returns fuel a b 10 default_threshold w
             (replicate 10 r) ltac:(lia) Hrs), tally_replicate in E.
  by destruct (positive_result r); injection E as <- _.
Qed.

(** The gate of an epoch comes down to one game: the retrained network,
    moving first, against its snapshot. The epoch carries on with the
    retrained network when that game's result is greater than zero, and
    with the snapshot otherwise. *)
Theorem epoch_gate fuel self current_network train_batch_size num_episodes
    (w : Wt) next w' :
  epoch fuel self current_network train_batch_size num_episodes w
    = Return next w' →
  ∃ train_episodes (w1 : Wt) old_network (w2 w3 : Wt) r,
    self_play fuel self current_network num_episodes w
      = Return train_episodes w1 ∧
    deepcopy current_network w1 = Return old_network w2 ∧
    retrain_nn self current_network train_episodes train_batch_size w2
      = Return () w3 ∧
    play_game fuel current_network old_network w3 = Return r w3 ∧
    next = (if positive_result r then current_network else old_network) ∧
    w' = arena_logged current_network old_network 10 w3.
Proof.
  intros (eps & w1 & old & w2 & w3 & Esp & Edc & Ert & Eev)%epoch_Return.
  pose proof Eev as (r & Hr & ->)%arena_ten_default.
  exists eps, w1, old, w2, w3, r. split_and!; try done.
  revert Eev. rewrite evaluate_networks_unfold.
  destruct (arena_loop _ _ _ _ _ _) as [wins u|e] eqn:El; [|done].
  apply (reads_only_world current_network old) in El as ->;
    [|apply reads_only_arena_loop].
  destruct (10 =? 0); [done|].
  destruct (quotient_overflows _ _); [done|].
  by destruct (PrimFloat.ltb _ _); intros [= _ <-].
Qed.

End TrainFacts.

(** ** More runs on the concrete collaborators *)

Module Runs.

(** A heap with a bystander: network [5] is neither trained nor the
    optimizer's. *)
Definition world05 : World Z nat :=
  mkWorld (<[ 5%nat := 9 ]> {[ 0%nat := 7 ]}) 0%nat [].

(** What two epochs on [first_loses] leave of it: both challengers lost,
    the snapshots [6] and [7] were made, and [train] returns [7]. *)
Definition world05_trained : World Z nat :=
  mkWorld (<[ 7%nat := 7 ]> (<[ 6%nat := 11 ]> (<[ 5%nat := 9 ]> {[ 0%nat := 11 ]})))
          10%nat
          [EvSelfPlay 0%nat 2; EvDeepcopy 0%nat 6%nat; EvRetrain 0%nat;
           EvArena 0%nat 6%nat 10; EvSelfPlay 6%nat 2; EvDeepcopy 6%nat 7%nat;
           EvRetrain 6%nat; EvArena 6%nat 7%nat 10].

(** The loader of [four_examples] under [Toy.counted], batch size three,
    and the mini-batches of one pass over it. *)
Definition four_loader : DataLoader :=
  mkLoader (mkDataset [[0%float]; [1%float]; [0%float]; [1%float]]
                      [[1%float]; [1%float]; [1%float]; [1%float]]
                      [1%float; 1%float; 1%float; 1%float]) 3.

Definition four_batches : list (batch (list float)) :=
  [mkBatch [[1%float]; [0%float]; [1%float]] [[1%float]; [1%float]; [1%float]]
           [1%float; 1%float; 1%float];
   mkBatch [[0%float]] [[1%float]] [1%float]].

End Runs.

Lemma play_game_result_truthy_witness :
  play_game (gm := Toy.first_loses) (ev := Toy.counter_net)
    5 0%nat 1%nat Toy.world01 = Return (-1)%float Toy.world01 ∧
  truthy (-1)%float = true.
Proof.
  assert (H : play_game (gm := Toy.first_loses) (ev := Toy.counter_net)
                5 0%nat 1%nat Toy.world01 = Return (-1)%float Toy.world01)
    by (vm_compute; reflexivity).
  split; [exact H|].
  exact (proj1 (play_game_result_truthy (gm := Toy.first_loses)
                  (ev := Toy.counter_net) 5 0%nat 1%nat Toy.world01
                  (-1)%float Toy.world01 H)).
Defined.

Lemma arena_games_identical_witness :
  play_games (gm := Toy.two_moves) (ev := Toy.counter_net)
    5 3 0%nat 1%nat Toy.world01
  = Return [1%float; 1%float; 1%float] Toy.world01 ∧
  (tally [1%float; 1%float; 1%float] = 0
   ∨ tally [1%float; 1%float; 1%float] = Z.of_nat 3).
Proof.
  assert (H : play_games (gm := Toy.two_moves) (ev := Toy.counter_net)
                5 3 0%nat 1%nat Toy.world01
              = Return [1%float; 1%float; 1%float] Toy.world01)
    by (vm_compute; reflexivity).
  split; [exact H|].
  exact (proj1 (proj2 (proj2 (proj2
           (arena_games_identical (gm := Toy.two_moves) (ev := Toy.counter_net)
              5 3 0%nat 1%nat Toy.world01 _ _ H))))).
Defined.

Lemma evaluate_networks_ten_games_witness :
  play_game (gm := Toy.first_loses) (ev := Toy.counter_net)
    5 0%nat 1%nat Toy.world01 = Return (-1)%float Toy.world01 ∧
  evaluate_networks (gm := Toy.first_loses) (ev := Toy.counter_net)
    5 0%nat 1%nat 10 default_threshold Toy.world01
  = Return 1%nat (arena_logged 0%nat 1%nat 10 Toy.world01).
Proof.
  assert (H : play_game (gm := Toy.first_loses) (ev := Toy.counter_net)
                5 0%nat 1%nat Toy.world01 = Return (-1)%float Toy.world01)
    by (vm_compute; reflexivity).
  split; [exact H|].
  exact (proj2 (evaluate_networks_ten_games (gm := Toy.first_loses)
                  (ev := Toy.counter_net) 5 0%nat 1%nat default_threshold
                  Toy.world01 (-1)%float Toy.world01 H)).
Defined.

Lemma evaluate_networks_read_only_witness :
  evaluate_networks (gm := Toy.two_moves) (ev := Toy.counter_net)
    5 0%nat 1%nat 10 default_threshold Toy.world01
  = Return 0%nat (arena_logged 0%nat 1%nat 10 Toy.world01) ∧
  nets (arena_logged 0%nat 1%nat 10 Toy.world01) = nets Toy.world01.
Proof.
  assert (H : evaluate_networks (gm := Toy.two_moves) (ev := Toy.counter_net)
                5 0%nat 1%nat 10 default_threshold Toy.world01
              = Return 0%nat (arena_logged 0%nat 1%nat 10 Toy.world01))
    by (vm_compute; reflexivity).
  split; [exact H|].
  exact (proj1 (proj2 (evaluate_networks_read_only (gm := Toy.two_moves)
                         (ev := Toy.counter_net) 5 0%nat 1%nat 10
                         default_threshold Toy.world01 _ _ H))).
Defined.

Lemma iter_dataloader_batch_count_witness :
  batch_episodes (ba := Toy.counted) Toy.four_examples 3 Toy.world0
    = Return Runs.four_loader Toy.world0 ∧
  iter_dataloader (rnd := Toy.counting) Runs.four_loader Toy.world0
    = Return Runs.four_batches (mkWorld (nets Toy.world0) 1%nat []) ∧
  length Runs.four_batches = 2%nat.
Proof.
  assert (H1 : batch_episodes (ba := Toy.counted) Toy.four_examples 3
                 Toy.world0
               = Return Runs.four_loader Toy.world0)
    by (vm_compute; reflexivity).
  assert (H2 : iter_dataloader (rnd := Toy.counting) Runs.four_loader Toy.world0
               = Return Runs.four_batches (mkWorld (nets Toy.world0) 1%nat []))
    by (vm_compute; reflexivity).
  split; [exact H1|]. split; [exact H2|].
  exact (proj1 (iter_dataloader_batch_count (ba := Toy.counted)
                  (rnd := Toy.counting)
                  Toy.four_examples 3 Toy.world0 _ _ _ _ H1 H2)).
Defined.


Lemma retrain_nn_steps_witness :
  Toy.four_examples ≠ [] ∧ 1 ≤ 3 ≤ sys_maxsize ∧
  ∃ (batches : list (batch (list float))) (w' : World Z nat),
    retrain_nn (ba := Toy.counted) (ev := Toy.counter_net) (rnd := Toy.counting)
      Toy.agent 0%nat Toy.four_examples 3 Toy.world0 = Return () w' ∧
    length batches = 2%nat.
Proof.
  assert (H1 : Toy.four_examples ≠ []) by discriminate.
  assert (H2 : ∀ e1 e2 : nat * list float * float,
            e1 ∈ Toy.four_examples → e2 ∈ Toy.four_examples →
            length (board_array (BoardArray := Toy.counted) e1.1.1)
            = length (board_array (BoardArray := Toy.counted) e2.1.1))
    by done.
  assert (H3 : ∀ e1 e2 : nat * list float * float,
            e1 ∈ Toy.four_examples → e2 ∈ Toy.four_examples →
            length e1.1.2 = length e2.1.2).
  { intros e1 e2 He1 He2.
    apply (proj1 (rectangular_true ((λ e, e.1.2) <$> Toy.four_examples)));
      [vm_compute; reflexivity | | ]; apply list_elem_of_fmap; eauto. }
  assert (H4 : 1 ≤ 3 ≤ sys_maxsize) by (unfold sys_maxsize; lia).
  split; [exact H1|]. split; [exact H4|].
  destruct (retrain_nn_steps (ba := Toy.counted) (ev := Toy.counter_net)
              (rnd := Toy.counting)
              Toy.agent 0%nat Toy.four_examples 3 Toy.world0 H1 H2 H3 H4)
    as (batches & w' & Hr & _ & Hlen & _).
  exists batches, w'. split; [exact Hr|exact Hlen].
Defined.


Lemma self_play_episode_path_witness :
  self_play_episode (gm := Toy.two_moves) (ts := Toy.one_action)
    (rnd := Toy.counting) 5 Toy.agent 0%nat Toy.world0
  = Return [(0%nat, [1%float], 1%float); (1%nat, [1%float], 1%float)]
           (mkWorld (nets Toy.world0) 2%nat []) ∧
  ∃ turns s_end p_end,
    length turns = 2%nat ∧
    episode_path (gm := Toy.two_moves) 0%nat 1
      (zip [0%nat; 1%nat] turns) s_end p_end.
Proof.
  assert (H : self_play_episode (gm := Toy.two_moves) (ts := Toy.one_action)
                (rnd := Toy.counting) 5 Toy.agent 0%nat Toy.world0
              = Return [(0%nat, [1%float], 1%float); (1%nat, [1%float], 1%float)]
                       (mkWorld (nets Toy.world0) 2%nat []))
    by (vm_compute; reflexivity).
  split; [exact H|].
  destruct (self_play_episode_path (gm := Toy.two_moves)
              (ts := Toy.one_action) (rnd := Toy.counting)
              5 Toy.agent 0%nat Toy.world0 _ _ H)
    as (turns & s_end & p_end & _ & Hlen & Hpath & _).
  exists turns, s_end, p_end. split; [exact Hlen|exact Hpath].
Defined.

(** Two episodes of [two_moves]: two runs of the episode, two examples
    each. *)
Lemma self_play_grouped_witness :
  self_play (gm := Toy.two_moves) (ts := Toy.one_action) (rnd := Toy.counting)
    5 Toy.agent 0%nat 2 Toy.world0
  = Return Toy.four_examples
      (mkWorld (nets Toy.world0) 4%nat [EvSelfPlay 0%nat 2]) ∧
  ∃ episodes : list (list (nat * list float * float)),
    episode_runs (gm := Toy.two_moves) (ts := Toy.one_action)
      (rnd := Toy.counting) 5 Toy.agent 0%nat (Z.to_nat 2)
      (self_play_logged 0%nat 2 Toy.world0)
    = Return episodes (mkWorld (nets Toy.world0) 4%nat [EvSelfPlay 0%nat 2]) ∧
    length episodes = 2%nat ∧ Toy.four_examples = mjoin episodes.
Proof.
  assert (H : self_play (gm := Toy.two_moves) (ts := Toy.one_action)
                (rnd := Toy.counting) 5 Toy.agent 0%nat 2 Toy.world0
              = Return Toy.four_examples
                  (mkWorld (nets Toy.world0) 4%nat [EvSelfPlay 0%nat 2]))
    by (vm_compute; reflexivity).
  split; [exact H|].
  destruct (self_play_grouped (gm := Toy.two_moves) (ts := Toy.one_action)
              (rnd := Toy.counting) 5 Toy.agent 0%nat 2 Toy.world0 _ _ H)
    as (_ & _ & episodes & Hruns & Hlen & Hjoin & _).
  exists episodes. split; [exact Hruns|]. split; [exact Hlen|exact Hjoin].
Defined.

Lemma train_without_examples_witness :
  is_Some (nets Toy.world0 !! 0%nat) ∧ 1 ≤ 2 ∧
  train (gm := Toy.two_moves) (ba := Toy.counted) (ev := Toy.counter_net) (ts := Toy.one_action)
    (rnd := Toy.counting) 5 Toy.agent 0%nat 3 2 0 Toy.world0
  = Raise ValueError.
Proof.
  assert (H1 : is_Some (nets Toy.world0 !! 0%nat)).
  { exists 7. vm_compute. reflexivity. }
  assert (H2 : 1 ≤ 2) by lia.
  assert (H3 : 0 ≤ 0 ∨ truthy (getGameEnded (Game := Toy.two_moves)
                                 (getInitBoard (Game := Toy.two_moves)) 1)
                       = true) by (left; lia).
  split; [exact H1|]. split; [exact H2|].
  exact (train_without_examples (gm := Toy.two_moves) (ba := Toy.counted) (ev := Toy.counter_net)
           (ts := Toy.one_action) (rnd := Toy.counting)
           5 Toy.agent 0%nat 3 2 0 Toy.world0 H1 H2 H3).
Defined.

Lemma train_frame_witness :
  train (gm := Toy.first_loses) (ba := Toy.counted) (ev := Toy.counter_net) (ts := Toy.one_action)
    (rnd := Toy.counting) 5 Toy.agent 0%nat 3 2 2 Runs.world05
  = Return 7%nat Runs.world05_trained ∧
  nets Runs.world05_trained !! 5%nat = nets Runs.world05 !! 5%nat.
Proof.
  assert (H : train (gm := Toy.first_loses) (ba := Toy.counted) (ev := Toy.counter_net)
                (ts := Toy.one_action) (rnd := Toy.counting)
                5 Toy.agent 0%nat 3 2 2 Runs.world05
              = Return 7%nat Runs.world05_trained)
    by (vm_compute; reflexivity).
  split; [exact H|].
  refine (proj1 (train_frame (gm := Toy.first_loses) (ba := Toy.counted) (ev := Toy.counter_net)
                   (ts := Toy.one_action) (rnd := Toy.counting)
                   5 Toy.agent 0%nat 3 2 2 Runs.world05 7%nat
                   Runs.world05_trained 5%nat H _ _ _)).
  - exists 9. vm_compute. reflexivity.
  - discriminate.
  - apply (bool_decide_unpack (5%nat ∉ optimizer Toy.agent)).
    vm_compute. exact I.
Defined.

Lemma epoch_gate_witness :
  epoch (gm := Toy.first_loses) (ba := Toy.counted) (ev := Toy.counter_net) (ts := Toy.one_action)
    (rnd := Toy.counting) 5 Toy.agent 0%nat 3 2 Toy.world0
  = Return 1%nat Toy.world_after_epoch ∧
  ∃ old_network (w3 : World Z nat) r,
    play_game (gm := Toy.first_loses) (ev := Toy.counter_net)
      5 0%nat old_network w3 = Return r w3 ∧
    1%nat = (if positive_result r then 0%nat else old_network).
Proof.
  assert (H : epoch (gm := Toy.first_loses) (ba := Toy.counted) (ev := Toy.counter_net)
                (ts := Toy.one_action) (rnd := Toy.counting)
                5 Toy.agent 0%nat 3 2 Toy.world0
              = Return 1%nat Toy.world_after_epoch)
    by (vm_compute; reflexivity).
  split; [exact H|].
  destruct (epoch_gate (gm := Toy.first_loses) (ba := Toy.counted) (ev := Toy.counter_net)
              (ts := Toy.one_action) (rnd := Toy.counting)
              5 Toy.agent 0%nat 3 2 Toy.world0 _ _ H)
    as (eps & w1 & old & w2 & w3 & r & _ & _ & _ & Hr & Hnext & _).
  exists old, w3, r. split; [exact Hr|exact Hnext].
Defined.
